(** * matsav_ok_bot: the abuse-control engine ([security.py]) and the
      batched delivery engine ([scheduler_optimized.py])

    A shallow embedding of [SecurityManager] and of
    [OptimizedNotificationScheduler], and the properties of the
    specification proved (or refuted) on it.

    Conventions.
    - A Python [str] is the list of its code points ([text]).  Literals of
      the source are written as they stand there and decoded from UTF-8 by
      [u].
    - A [datetime] is its number of microseconds since the epoch (a [Z]);
      a [timedelta] is a number of microseconds.
    - [time.time()] readings and [asyncio.sleep] durations are seconds,
      taken in [Q]; the rounding of floats is not modelled.
    - Calls to [logger] are not modelled, except the line that announces a
      batch, which marks the batch boundaries in the trace. *)

From Stdlib Require Import ZArith List Bool Lia QArith String Ascii Sorted.
From stdpp Require Import gmap strings list.

Open Scope Z_scope.

(** ** Text *)

Abbreviation text := (list Z).

(** Decoding of UTF-8, for the literals of the source (well-formed input of
    one to four bytes per code point). *)
Fixpoint utf8_decode (fuel : nat) (bs : list Z) : text :=
  match fuel with
  | O => []
  | S fuel' =>
    match bs with
    | [] => []
    | b0 :: r0 =>
      if b0 <? 128 then b0 :: utf8_decode fuel' r0
      else if b0 <? 224 then
        match r0 with
        | b1 :: r1 => ((b0 - 192) * 64 + (b1 - 128)) :: utf8_decode fuel' r1
        | _ => []
        end
      else if b0 <? 240 then
        match r0 with
        | b1 :: b2 :: r2 =>
          ((b0 - 224) * 4096 + (b1 - 128) * 64 + (b2 - 128))
            :: utf8_decode fuel' r2
        | _ => []
        end
      else
        match r0 with
        | b1 :: b2 :: b3 :: r3 =>
          ((b0 - 240) * 262144 + (b1 - 128) * 4096 + (b2 - 128) * 64
           + (b3 - 128)) :: utf8_decode fuel' r3
        | _ => []
        end
    end
  end.

Definition bytes_of (s : string) : list Z :=
  map (fun a => Z.of_nat (nat_of_ascii a)) (list_ascii_of_string s).

Definition u (s : string) : text :=
  let bs := bytes_of s in utf8_decode (List.length bs) bs.

Definition in_range (lo hi c : Z) : bool := (lo <=? c) && (c <=? hi).

(** The part of the Unicode character database that the model does not
    spell out.  Basic Latin and the Cyrillic letters U+0400..U+045F (the
    alphabets of the patterns) are modelled below; for every other code
    point the lower-case mapping and the word-character class are taken
    from this table.  The mapping receives the text before and after the
    character, since [str.lower] is context-sensitive for a few letters. *)
Class Unicode := {
  lower_other : text -> Z -> text -> text;
  word_other : Z -> bool
}.

Section Strings.
Context `{Unicode}.

(** [str.lower], one character in its context. *)
Definition lower_char (before : text) (c : Z) (after : text) : text :=
  if in_range 65 90 c then [c + 32]
  else if c <? 128 then [c]
  else if in_range 1040 1071 c then [c + 32]
  else if in_range 1024 1039 c then [c + 80]
  else if in_range 1072 1119 c then [c]
  else lower_other before c after.

Fixpoint lower_from (before s : text) : text :=
  match s with
  | [] => []
  | c :: rest => lower_char before c rest ++ lower_from (before ++ [c]) rest
  end.

(** [s.lower()] *)
Definition py_lower (s : text) : text := lower_from [] s.

(** [\w] of a [str] pattern: alphanumeric or underscore. *)
Definition is_word (c : Z) : bool :=
  if c <? 128 then
    in_range 48 57 c || in_range 65 90 c || in_range 97 122 c || (c =? 95)
  else if in_range 1024 1119 c then true
  else word_other c.

End Strings.

(** [needle in haystack] *)
Fixpoint is_prefix (p s : text) : bool :=
  match p, s with
  | [], _ => true
  | a :: p', b :: s' => (a =? b) && is_prefix p' s'
  | _ :: _, [] => false
  end.

Fixpoint contains (needle hay : text) : bool :=
  is_prefix needle hay
  || match hay with
     | [] => false
     | _ :: hay' => contains needle hay'
     end.

(** ** Regular expressions

    The patterns of [_init_suspicious_patterns] use character classes,
    literals, alternation, bounded-below repetition and an optional
    character; [re.search] on them is decided with derivatives.  The one
    pattern with a back-reference is matched by [repeated_run]. *)

Inductive regex :=
| Empty
| Eps
| Class (p : Z -> bool)
| Cat (r1 r2 : regex)
| Alt (r1 r2 : regex)
| Star (r : regex).

Fixpoint nullable (r : regex) : bool :=
  match r with
  | Empty => false
  | Eps => true
  | Class _ => false
  | Cat r1 r2 => nullable r1 && nullable r2
  | Alt r1 r2 => nullable r1 || nullable r2
  | Star _ => true
  end.

Fixpoint deriv (c : Z) (r : regex) : regex :=
  match r with
  | Empty => Empty
  | Eps => Empty
  | Class p => if p c then Eps else Empty
  | Cat r1 r2 =>
    if nullable r1 then Alt (Cat (deriv c r1) r2) (deriv c r2)
    else Cat (deriv c r1) r2
  | Alt r1 r2 => Alt (deriv c r1) (deriv c r2)
  | Star r1 => Cat (deriv c r1) (Star r1)
  end.

(** Some prefix of [s] is in the language of [r]. *)
Fixpoint match_here (r : regex) (s : text) : bool :=
  nullable r
  || match s with
     | [] => false
     | c :: s' => match_here (deriv c r) s'
     end.

(** [re.search(r, s)] is not [None]. *)
Fixpoint re_search (r : regex) (s : text) : bool :=
  match_here r s
  || match s with
     | [] => false
     | _ :: s' => re_search r s'
     end.

Definition chr (c : Z) : regex := Class (Z.eqb c).

Fixpoint lit (s : text) : regex :=
  match s with
  | [] => Eps
  | c :: s' => Cat (chr c) (lit s')
  end.

(** [r{n,}] *)
Fixpoint at_least (n : nat) (r : regex) : regex :=
  match n with
  | O => Star r
  | S n' => Cat r (at_least n' r)
  end.

(** [r?] *)
Definition opt (r : regex) : regex := Alt r Eps.

Fixpoint alts (rs : list regex) : regex :=
  match rs with
  | [] => Empty
  | [r] => r
  | r :: rs' => Alt r (alts rs')
  end.

(** [(.)\1{5,}] at the head of [s]: a character other than a newline
    followed by at least five copies of itself. *)
Definition run_here (s : text) : bool :=
  match s with
  | [] => false
  | c :: rest =>
    negb (c =? 10)
    && (5 <=? List.length rest)%nat
    && forallb (Z.eqb c) (firstn 5 rest)
  end.

Fixpoint repeated_run (s : text) : bool :=
  run_here s
  || match s with
     | [] => false
     | _ :: s' => repeated_run s'
     end.

(** * The abuse-control engine: [security.py] *)

Module Security.

(** ** Data *)

(** The [action_type] strings the handlers pass. *)
Inductive action_type :=
| message
| phrase
| command
| other_action (name : string).

Definition action_type_eqb (a b : action_type) : bool :=
  match a, b with
  | message, message => true
  | phrase, phrase => true
  | command, command => true
  | other_action x, other_action y => bool_decide (x = y)
  | _, _ => false
  end.

(** One entry of [user_actions[user_id]]. *)
Record action := {
  a_type : action_type;
  a_time : Z;
  a_content : text
}.

(** The mutable part of a [SecurityManager]. *)
Record SecurityManager := {
  user_actions : gmap Z (list action);
  blocked_users : gset Z
}.

(** [self.rate_limits] *)
Record RateLimits := {
  messages_per_hour : nat;
  phrases_per_day : nat;
  commands_per_minute : nat
}.

Definition rate_limits : RateLimits :=
  {| messages_per_hour := 10; phrases_per_day := 3; commands_per_minute := 5 |}.

(** [timedelta] values, in microseconds. *)
Definition minutes (n : Z) : Z := n * 60000000.
Definition hours (n : Z) : Z := n * 3600000000.
Definition days (n : Z) : Z := n * 86400000000.

(** The result dictionary of [auto_moderate_phrase]. *)
Record moderation := {
  allowed : bool;
  reason : string;
  suspicion_level : nat;
  auto_block : bool
}.

(** ** Blocking *)

Definition is_user_blocked (sm : SecurityManager) (user_id : Z) : bool :=
  bool_decide (user_id ∈ blocked_users sm).

(** [save_blocked_users] writes a file and is not modelled. *)
Definition block_user (sm : SecurityManager) (user_id : Z) : SecurityManager :=
  {| user_actions := user_actions sm;
     blocked_users := {[ user_id ]} ∪ blocked_users sm |}.

Definition unblock_user (sm : SecurityManager) (user_id : Z) : SecurityManager :=
  {| user_actions := user_actions sm;
     blocked_users := blocked_users sm ∖ {[ user_id ]} |}.

(** ** Rate limits *)

(** [self.user_actions[user_id]] on a [defaultdict(list)]: a missing key is
    created with an empty list. *)
Definition getitem (m : gmap Z (list action)) (user_id : Z)
  : list action * gmap Z (list action) :=
  match m !! user_id with
  | Some l => (l, m)
  | None => ([], <[user_id := []]> m)
  end.

(** The subject's history, as a reader of the dictionary sees it. *)
Definition history (sm : SecurityManager) (user_id : Z) : list action :=
  fst (getitem (user_actions sm) user_id).

(** [[a for a in user_actions if a['type'] == kind and a['time'] > cutoff]] *)
Definition recent (kind : action_type) (cutoff : Z) (l : list action)
  : list action :=
  List.filter (fun a => action_type_eqb (a_type a) kind && (cutoff <? a_time a)) l.

(** [check_rate_limit]; [now] is the reading of [datetime.now()]. *)
Definition check_rate_limit (sm : SecurityManager) (user_id : Z)
    (kind : action_type) (now : Z) : bool * SecurityManager :=
  let '(acts, m) := getitem (user_actions sm) user_id in
  let sm' := {| user_actions := m; blocked_users := blocked_users sm |} in
  match kind with
  | message =>
    let cutoff := now - hours 1 in
    if (messages_per_hour rate_limits <=? List.length (recent message cutoff acts))%nat
    then (false, sm') else (true, sm')
  | phrase =>
    let cutoff := now - days 1 in
    if (phrases_per_day rate_limits <=? List.length (recent phrase cutoff acts))%nat
    then (false, sm') else (true, sm')
  | command =>
    let cutoff := now - minutes 1 in
    if (commands_per_minute rate_limits <=? List.length (recent command cutoff acts))%nat
    then (false, sm') else (true, sm')
  | other_action _ => (true, sm')
  end.

(** [log_user_action]; [t_action] and [t_prune] are its two readings of
    [datetime.now()], in that order. *)
Definition log_user_action (sm : SecurityManager) (user_id : Z)
    (kind : action_type) (content : text) (t_action t_prune : Z)
  : SecurityManager :=
  let act := {| a_type := kind; a_time := t_action;
                a_content := firstn 100 content |} in
  let '(acts, m) := getitem (user_actions sm) user_id in
  let m1 := <[user_id := acts ++ [act]]> m in
  let cutoff := t_prune - days 7 in
  let '(acts1, m2) := getitem m1 user_id in
  let m3 := <[user_id := List.filter (fun a => cutoff <? a_time a) acts1]> m2 in
  {| user_actions := m3; blocked_users := blocked_users sm |}.

(** ** Suspicious content *)

Inductive pattern :=
| Backref
| Rx (r : regex).

Section Patterns.
Context `{Unicode}.

Definition upper_class (c : Z) : bool :=
  in_range 65 90 c || in_range 1040 1071 c.

Definition one_of (cs : text) (c : Z) : bool :=
  existsb (Z.eqb c) cs.

(** [self.suspicious_patterns], in the order of the source. *)
Definition suspicious_patterns : list pattern :=
  [ (* (.)\1{5,} *)
    Backref;
    (* [!]{3,} *)
    Rx (at_least 3 (Class (one_of (u "!"))));
    (* [?]{3,} *)
    Rx (at_least 3 (Class (one_of (u "?"))));
    (* [A-ZА-Я]{10,} *)
    Rx (at_least 10 (Class upper_class));
    (* bit\.ly|tinyurl|t\.me/\w+ *)
    Rx (alts [lit (u "bit.ly"); lit (u "tinyurl");
              Cat (lit (u "t.me/")) (at_least 1 (Class is_word))]);
    (* @\w+ *)
    Rx (Cat (lit (u "@")) (at_least 1 (Class is_word)));
    (* куп[иы]|продаж|скидк|акция|реклам *)
    Rx (alts [Cat (lit (u "куп")) (Class (one_of (u "иы")));
              lit (u "продаж"); lit (u "скидк"); lit (u "акция");
              lit (u "реклам")]);
    (* деньги|доход|заработ|млн|тысяч *)
    Rx (alts [lit (u "деньги"); lit (u "доход"); lit (u "заработ");
              lit (u "млн"); lit (u "тысяч")]);
    (* телеграм[- ]?канал|подписыва *)
    Rx (alts [Cat (lit (u "телеграм"))
                  (Cat (opt (Class (one_of (u "- ")))) (lit (u "канал")));
              lit (u "подписыва")]) ].

(** [re.search(pattern, s)] is not [None]. *)
Definition search (p : pattern) (s : text) : bool :=
  match p with
  | Backref => repeated_run s
  | Rx r => re_search r s
  end.

(** [check_suspicious_content]: the patterns found in the lowered text. *)
Definition check_suspicious_content (txt : text) : list pattern :=
  let text_lower := py_lower txt in
  List.filter (fun p => search p text_lower) suspicious_patterns.

Definition is_content_suspicious (txt : text) : bool :=
  (0 <? List.length (check_suspicious_content txt))%nat.

(** ** The gate *)

Definition reason_blocked : string := "Пользователь заблокирован".
Definition reason_rate_limited : string := "Превышен лимит фраз в день".
Definition reason_suspicious : string := "Подозрительное содержимое".
Definition reason_manual_review : string := "Требует ручной модерации".

(** [auto_moderate_phrase]; [t_check] is the reading of the clock in
    [check_rate_limit], [t_action] and [t_prune] those of
    [log_user_action]. *)
Definition auto_moderate_phrase (sm : SecurityManager) (user_id : Z)
    (txt : text) (t_check t_action t_prune : Z)
  : moderation * SecurityManager :=
  let result := {| allowed := true; reason := ""; suspicion_level := 0;
                   auto_block := false |} in
  if is_user_blocked sm user_id then
    ({| allowed := false; reason := reason_blocked;
        suspicion_level := suspicion_level result;
        auto_block := auto_block result |}, sm)
  else
    let '(ok, sm1) := check_rate_limit sm user_id phrase t_check in
    if negb ok then
      ({| allowed := false; reason := reason_rate_limited;
          suspicion_level := 3; auto_block := auto_block result |}, sm1)
    else
      let found := check_suspicious_content txt in
      let result1 :=
        match found with
        | [] => result
        | _ :: _ =>
          let level := List.length found in
          if (3 <=? level)%nat then
            {| allowed := false; reason := reason_suspicious;
               suspicion_level := level; auto_block := true |}
          else if (2 <=? level)%nat then
            {| allowed := false; reason := reason_manual_review;
               suspicion_level := level; auto_block := auto_block result |}
          else
            {| allowed := allowed result; reason := reason result;
               suspicion_level := level; auto_block := auto_block result |}
        end in
      (result1, log_user_action sm1 user_id phrase txt t_action t_prune).

(** The fragment of [process_user_phrase] ([bot_handlers_optimized.py])
    that calls the gate and acts on its answer. *)
Definition moderate_and_block (sm : SecurityManager) (user_id : Z)
    (txt : text) (t_check t_action t_prune : Z)
  : moderation * SecurityManager :=
  let '(r, sm1) := auto_moderate_phrase sm user_id txt t_check t_action t_prune in
  if negb (allowed r) then
    if auto_block r then (r, block_user sm1 user_id) else (r, sm1)
  else (r, sm1).

End Patterns.

End Security.

(** * The batched delivery engine: [scheduler_optimized.py] *)

Module Scheduler.

(** ** Exceptions *)

(** The exceptions the worker tells apart.  [Forbidden], [RetryAfter] and
    [ChatMigrated] derive from [TelegramError], which derives from
    [Exception]; [CancelledError] derives from [BaseException] only. *)
Inductive exn :=
| Forbidden (msg : text)
| RetryAfter (retry_after : Z) (msg : text)
| ChatMigrated (new_chat_id : Z) (msg : text)
| TelegramError (msg : text)
| PyException (msg : text)
| CancelledError.

(** [isinstance(e, Exception)] *)
Definition is_Exception (e : exn) : bool :=
  match e with
  | CancelledError => false
  | _ => true
  end.

(** [str(e)] *)
Definition exn_str (e : exn) : text :=
  match e with
  | Forbidden m | RetryAfter _ m | ChatMigrated _ m
  | TelegramError m | PyException m => m
  | CancelledError => []
  end.

Inductive result (A : Type) :=
| Ok (a : A)
| Raise (e : exn).
Arguments Ok {A} a.
Arguments Raise {A} e.

(** ** The world outside the scheduler *)

Inductive event :=
| EvSend (chat_id : Z) (txt : text)
| EvLog (user_id phrase_id : Z) (status : string) (error : option text)
| EvInactive (user_id : Z)
| EvSleep (delay : Q)
| EvBatch (batch_num total size : nat).

(** The transport, the event loop, the clock and the database, as the
    scheduler meets them.  [send_script k] is the outcome of the [k]-th call
    of [bot.send_message] ([None]: delivered) and [sleep_script k] that of
    the [k]-th [asyncio.sleep]; [clock k] is the [k]-th reading of
    [time.time()].  The functions of [optimized_db] catch every [Exception]
    themselves ([database_optimized.py]), so they return values:
    [active_users] and [random_phrase] are what the two queries give, and
    the writes are recorded in [trace], as every call is. *)
Record World := {
  send_script : nat -> option exn;
  sleep_script : nat -> option exn;
  clock : nat -> Q;
  active_users : list Z;
  random_phrase : option text;
  sends : nat;
  sleeps : nat;
  ticks : nat;
  trace : list event
}.

Definition emit (e : event) (w : World) : World :=
  {| send_script := send_script w; sleep_script := sleep_script w;
     clock := clock w; active_users := active_users w;
     random_phrase := random_phrase w;
     sends := sends w; sleeps := sleeps w; ticks := ticks w;
     trace := trace w ++ [e] |}.

(** ** Computations that may raise *)

Definition M (A : Type) : Type := World -> result A * World.

Definition ret {A} (a : A) : M A := fun w => (Ok a, w).

Definition raise {A} (e : exn) : M A := fun w => (Raise e, w).

Definition bind {A B} (m : M A) (k : A -> M B) : M B :=
  fun w =>
    match m w with
    | (Ok a, w') => k a w'
    | (Raise e, w') => (Raise e, w')
    end.

Notation "x <-- m ;; k" := (bind m (fun x => k))
  (at level 200, m at level 100, k at level 200, only parsing).
Notation "m ;;; k" := (bind m (fun _ => k))
  (at level 200, k at level 200, only parsing).

(** [try: body  except ... as e: handler e] *)
Definition try_except {A} (body : M A) (handler : exn -> M A) : M A :=
  fun w =>
    match body w with
    | (Ok a, w') => (Ok a, w')
    | (Raise e, w') => handler e w'
    end.

(** [await self.bot.send_message(chat_id=..., text=...)] *)
Definition send_message (chat_id : Z) (txt : text) : M unit :=
  fun w =>
    let w' :=
      {| send_script := send_script w; sleep_script := sleep_script w;
         clock := clock w; active_users := active_users w;
         random_phrase := random_phrase w;
         sends := S (sends w); sleeps := sleeps w; ticks := ticks w;
         trace := trace w ++ [EvSend chat_id txt] |} in
    match send_script w (sends w) with
    | None => (Ok tt, w')
    | Some e => (Raise e, w')
    end.

(** [await asyncio.sleep(delay)] *)
Definition sleep (delay : Q) : M unit :=
  fun w =>
    let w' :=
      {| send_script := send_script w; sleep_script := sleep_script w;
         clock := clock w; active_users := active_users w;
         random_phrase := random_phrase w;
         sends := sends w; sleeps := S (sleeps w); ticks := ticks w;
         trace := trace w ++ [EvSleep delay] |} in
    match sleep_script w (sleeps w) with
    | None => (Ok tt, w')
    | Some e => (Raise e, w')
    end.

(** [time_module.time()] *)
Definition time (w : World) : Q * World :=
  (clock w (ticks w),
   {| send_script := send_script w; sleep_script := sleep_script w;
      clock := clock w; active_users := active_users w;
      random_phrase := random_phrase w;
      sends := sends w; sleeps := sleeps w; ticks := S (ticks w);
      trace := trace w |}).

(** [await optimized_db.log_notification(user_id, phrase_id, status, error)] *)
Definition log_notification (user_id phrase_id : Z) (status : string)
    (error : option text) : M unit :=
  fun w => (Ok tt, emit (EvLog user_id phrase_id status error) w).

(** [await optimized_db.mark_user_inactive(user_id)] *)
Definition mark_user_inactive (user_id : Z) : M unit :=
  fun w => (Ok tt, emit (EvInactive user_id) w).

(** The [logger.info] that announces a batch. *)
Definition log_batch (batch_num total size : nat) : M unit :=
  fun w => (Ok tt, emit (EvBatch batch_num total size) w).

(** ** The scheduler *)

Record Stats := {
  total_sent : nat;
  total_failed : nat;
  last_batch_time : option Q;
  average_batch_time : Q;
  retry_queue_size : nat
}.

Record Scheduler := {
  notification_count : nat;
  is_sending : bool;
  stats : Stats
}.

(** The settings of [__init__]. *)
Definition batch_size : nat := 50.
Definition batch_delay : Q := 1 # 2.
Definition message_delay : Q := 3 # 100.

(** The scheduler as [__init__] leaves it. *)
Definition init : Scheduler :=
  {| notification_count := 0;
     is_sending := false;
     stats := {| total_sent := 0; total_failed := 0;
                 last_batch_time := None; average_batch_time := 0%Q;
                 retry_queue_size := 0 |} |}.

Definition set_sending (b : bool) (sch : Scheduler) : Scheduler :=
  {| notification_count := notification_count sch;
     is_sending := b;
     stats := stats sch |}.

Section Worker.
Context `{Unicode}.

(** [_send_to_user] *)
Definition _send_to_user (user_id : Z) (txt : text) : M bool :=
  try_except
    (send_message user_id txt ;;;
     log_notification user_id 0 "sent" None ;;;
     sleep message_delay ;;;
     ret true)
    (fun e =>
       match e with
       | Forbidden _ =>
         mark_user_inactive user_id ;;;
         ret false
       | RetryAfter retry_after _ =>
         let wait_time := Z.min retry_after 60 in
         sleep (inject_Z wait_time) ;;;
         try_except
           (send_message user_id txt ;;;
            log_notification user_id 0 "sent" None ;;;
            ret true)
           (fun retry_error =>
              if is_Exception retry_error then
                log_notification user_id 0 "failed"
                                 (Some (exn_str retry_error)) ;;;
                ret false
              else raise retry_error)
       | ChatMigrated _ _ =>
         ret false
       | TelegramError _ =>
         let error_msg := exn_str e in
         log_notification user_id 0 "failed" (Some error_msg) ;;;
         (if contains (u "blocked") (py_lower error_msg)
          then mark_user_inactive user_id else ret tt) ;;;
         ret false
       | PyException _ =>
         log_notification user_id 0 "failed" (Some (exn_str e)) ;;;
         ret false
       | CancelledError => raise e
       end).

(** [asyncio.gather] with [return_exceptions=True]: every task runs to
    its end and an exception it raised stands in the list as its result.
    The tasks of a batch run concurrently; the model runs them in the order
    of the list, which is one of the possible interleavings. *)
Fixpoint gather {A} (tasks : list (M A)) (w : World)
  : list (A + exn) * World :=
  match tasks with
  | [] => ([], w)
  | t :: ts =>
    let '(r, w1) := t w in
    let '(rs, w2) := gather ts w1 in
    (match r with Ok a => inl a | Raise e => inr e end :: rs, w2)
  end.

(** The loop of [_send_batch] over [zip(user_ids, results)]. *)
Definition count_results (user_ids : list Z) (results : list (bool + exn))
  : nat * nat :=
  fold_left
    (fun (acc : nat * nat) (ur : Z * (bool + exn)) =>
       let '(sent_count, failed_count) := acc in
       match snd ur with
       | inr e =>
         if is_Exception e then (sent_count, S failed_count)
         else (S sent_count, failed_count)
       | inl true => (S sent_count, failed_count)
       | inl false => (sent_count, S failed_count)
       end)
    (combine user_ids results) (0, 0)%nat.

(** [_send_batch] *)
Definition _send_batch (user_ids : list Z) (txt : text) : M (nat * nat) :=
  fun w =>
    let tasks := map (fun user_id => _send_to_user user_id txt) user_ids in
    let '(results, w') := gather tasks w in
    (Ok (count_results user_ids results), w').

(** [range(0, stop, step)] for a positive [step]. *)
Definition range0 (stop step : nat) : list nat :=
  map (fun k => k * step)%nat (seq 0 ((stop + step - 1) / step)).

(** [l[i:j]] for [0 <= i <= j] *)
Definition slice {A} (l : list A) (i j : nat) : list A :=
  firstn (j - i) (skipn i l).

(** [[users[i:i + size] for i in range(0, len(users), size)]] *)
Definition make_batches (users : list Z) (size : nat) : list (list Z) :=
  map (fun i => slice users i (i + size)) (range0 (List.length users) size).

(** The [for] loop of [send_batch_notification] over
    [enumerate(batches, 1)], from batch number [batch_num] on.  The local
    counters [sent_count] and [failed_count] are returned as they stand
    when the loop ends or is left by an exception. *)
Fixpoint dispatch (total batch_num : nat) (batches : list (list Z))
    (txt : text) (sent_count failed_count : nat) (w : World)
  : result unit * (nat * nat) * World :=
  match batches with
  | [] => (Ok tt, (sent_count, failed_count), w)
  | batch_users :: rest =>
    match (log_batch batch_num total (List.length batch_users) ;;;
           _send_batch batch_users txt) w with
    | (Raise e, w1) => (Raise e, (sent_count, failed_count), w1)
    | (Ok (batch_sent, batch_failed), w1) =>
      let sent_count' := (sent_count + batch_sent)%nat in
      let failed_count' := (failed_count + batch_failed)%nat in
      match (if (batch_num <? total)%nat then sleep batch_delay else ret tt) w1 with
      | (Raise e, w2) => (Raise e, (sent_count', failed_count'), w2)
      | (Ok _, w2) =>
        dispatch total (S batch_num) rest txt sent_count' failed_count' w2
      end
    end
  end.

(** The statistics after a run that came to its end. *)
Definition update_stats (st : Stats) (sent_count failed_count : nat)
    (elapsed_time : Q) : Stats :=
  {| total_sent := (total_sent st + sent_count)%nat;
     total_failed := (total_failed st + failed_count)%nat;
     last_batch_time := Some elapsed_time;
     average_batch_time :=
       if Qeq_bool (average_batch_time st) 0%Q then elapsed_time
       else ((average_batch_time st + elapsed_time) / 2)%Q;
     retry_queue_size := retry_queue_size st |}.

(** The body of the [try] of [send_batch_notification].  Beside the
    outcome it gives the local counters as they stand at the end. *)
Definition run_try (start_time : Q) (sch : Scheduler) (w : World)
  : result unit * (nat * nat) * Scheduler * World :=
  let users := active_users w in
  let phrase := random_phrase w in
  match users with
  | [] => (Ok tt, (0, 0)%nat, sch, w)
  | _ :: _ =>
    match phrase with
    | None | Some [] => (Ok tt, (0, 0)%nat, sch, w)
    | Some txt =>
      let sch1 :=
        {| notification_count := S (notification_count sch);
           is_sending := is_sending sch;
           stats := stats sch |} in
      let batches := make_batches users batch_size in
      match dispatch (List.length batches) 1 batches txt 0 0 w with
      | (Raise e, counters, w1) => (Raise e, counters, sch1, w1)
      | (Ok _, (sent_count, failed_count), w1) =>
        let '(t_end, w2) := time w1 in
        let elapsed_time := (t_end - start_time)%Q in
        (Ok tt, (sent_count, failed_count),
         {| notification_count := notification_count sch1;
            is_sending := is_sending sch1;
            stats := update_stats (stats sch1) sent_count failed_count
                                  elapsed_time |},
         w2)
      end
    end
  end.

(** [send_batch_notification]: the guard, the [try] with its
    [except Exception] and the [finally]. *)
Definition send_batch_notification (sch : Scheduler) (w : World)
  : result unit * Scheduler * World :=
  if is_sending sch then (Ok tt, sch, w)
  else
    let sch1 := set_sending true sch in
    let '(start_time, w1) := time w in
    let '(r, _, sch2, w2) := run_try start_time sch1 w1 in
    let r' :=
      match r with
      | Ok _ => Ok tt
      | Raise e => if is_Exception e then Ok tt else Raise e
      end in
    (r', set_sending false sch2, w2).

End Worker.

End Scheduler.

(** * Properties of the abuse-control engine *)

Import Security.

(** The table used where a statement is evaluated on a concrete text: every
    code point outside the modelled alphabets is its own lower case and is
    not a word character. *)
Definition plain_unicode : Unicode :=
  {| lower_other := fun _ c _ => [c]; word_other := fun _ => false |}.

(** ** The rate limiter, in the words of the specification *)

(** The kinds of action that have a limit. *)
Definition limited_kinds : list action_type := [message; phrase; command].

(** Window of an action kind: one hour, twenty-four hours, one minute. *)
Definition window (kind : action_type) : Z :=
  match kind with
  | message => hours 1
  | phrase => hours 24
  | command => minutes 1
  | other_action _ => 0
  end.

(** Threshold of an action kind. *)
Definition threshold (kind : action_type) : nat :=
  match kind with
  | message => 10
  | phrase => 3
  | command => 5
  | other_action _ => 0
  end.

Definition age (now : Z) (a : action) : Z := now - a_time a.

(** Number of recorded events of [kind] whose age at [now] is strictly less
    than the window. *)
Definition events_in_window (kind : action_type) (now : Z)
    (hist : list action) : nat :=
  List.length
    (List.filter
       (fun a => action_type_eqb (a_type a) kind && (age now a <? window kind))
       hist).

Lemma getitem_fst (m : gmap Z (list action)) (user_id : Z) :
  fst (getitem m user_id) = default [] (m !! user_id).
Proof.
  unfold getitem. destruct (m !! user_id); reflexivity.
Qed.

Lemma getitem_lookup (m : gmap Z (list action)) (user_id v : Z) :
  default [] (snd (getitem m user_id) !! v) = default [] (m !! v).
Proof.
  unfold getitem. destruct (m !! user_id) eqn:E; simpl; [reflexivity|].
  destruct (decide (user_id = v)) as [->|Hne].
  - rewrite lookup_insert_eq, E. reflexivity.
  - rewrite lookup_insert_ne by assumption. reflexivity.
Qed.

Lemma history_lookup (sm : SecurityManager) (user_id : Z) :
  history sm user_id = default [] (user_actions sm !! user_id).
Proof. apply getitem_fst. Qed.

Lemma recent_window (kind : action_type) (now : Z) (l : list action) :
  List.length (recent kind (now - window kind) l) = events_in_window kind now l.
Proof.
  unfold recent, events_in_window, age. f_equal.
  apply List.filter_ext. intros a. f_equal.
  destruct (Z.ltb_spec (now - window kind) (a_time a));
    destruct (Z.ltb_spec (now - a_time a) (window kind)); try reflexivity; lia.
Qed.

Lemma check_rate_limit_decision (sm : SecurityManager) (user_id : Z)
    (kind : action_type) (now : Z) :
  In kind limited_kinds ->
  fst (check_rate_limit sm user_id kind now)
  = negb (threshold kind <=? events_in_window kind now (history sm user_id))%nat.
Proof.
  intros Hk. unfold check_rate_limit, history.
  destruct (getitem (user_actions sm) user_id) as [acts m].
  destruct kind; simpl in Hk; cbv beta iota; change (fst (acts, m)) with acts.
  - change (now - hours 1) with (now - window message).
    rewrite recent_window.
    change (messages_per_hour rate_limits) with (threshold message).
    destruct (threshold message <=? events_in_window message now acts)%nat; reflexivity.
  - change (now - days 1) with (now - window phrase).
    rewrite recent_window.
    change (phrases_per_day rate_limits) with (threshold phrase).
    destruct (threshold phrase <=? events_in_window phrase now acts)%nat; reflexivity.
  - change (now - minutes 1) with (now - window command).
    rewrite recent_window.
    change (commands_per_minute rate_limits) with (threshold command).
    destruct (threshold command <=? events_in_window command now acts)%nat; reflexivity.
  - exfalso. intuition discriminate.
Qed.

Lemma check_rate_limit_history (sm : SecurityManager) (user_id : Z)
    (kind : action_type) (now : Z) (v : Z) :
  history (snd (check_rate_limit sm user_id kind now)) v = history sm v.
Proof.
  rewrite !history_lookup. unfold check_rate_limit.
  pose proof (getitem_lookup (user_actions sm) user_id v) as G.
  destruct (getitem (user_actions sm) user_id) as [acts m]. simpl in G.
  destruct kind; simpl;
    repeat match goal with |- context [if ?b then _ else _] => destruct b end;
    simpl; exact G.
Qed.

Lemma check_rate_limit_blocked (sm : SecurityManager) (user_id : Z)
    (kind : action_type) (now : Z) :
  blocked_users (snd (check_rate_limit sm user_id kind now)) = blocked_users sm.
Proof.
  unfold check_rate_limit.
  destruct (getitem (user_actions sm) user_id) as [acts m].
  destruct kind; simpl;
    repeat match goal with |- context [if ?b then _ else _] => destruct b end;
    reflexivity.
Qed.

(** C2. For every subject, every action kind among message,
    phrase-submission and command, every recorded history and every time
    [now], [check_rate_limit] returns false if and only if the number of
    recorded events of that kind whose age at [now] is strictly less than
    the window (one hour, twenty-four hours, one minute) is at least the
    threshold (10, 3, 5); an event whose age is exactly the window is not
    counted. *)
Theorem C2_rate_limit_admit_iff_below_threshold
    (sm : SecurityManager) (user_id : Z) (kind : action_type) (now : Z) :
  In kind limited_kinds ->
  (fst (check_rate_limit sm user_id kind now) = false
   <-> (threshold kind <= events_in_window kind now (history sm user_id))%nat)
  /\ (forall a hist, age now a = window kind ->
        events_in_window kind now (a :: hist) = events_in_window kind now hist)
  /\ (map threshold limited_kinds = [10; 3; 5])%nat
  /\ map window limited_kinds = [3600000000; 86400000000; 60000000].
Proof.
  intros Hk. repeat split.
  - rewrite check_rate_limit_decision by assumption.
    intros E. apply negb_false_iff in E. apply Nat.leb_le. exact E.
  - intros E. rewrite check_rate_limit_decision by assumption.
    apply negb_false_iff. apply Nat.leb_le. exact E.
  - intros a hist Ha. unfold events_in_window. simpl List.filter.
    rewrite Ha, Z.ltb_irrefl, andb_false_r. reflexivity.
Qed.

Lemma C2_witness :
  let old := {| a_type := phrase; a_time := 0; a_content := [] |} in
  let sm := {| user_actions := {[ 7 := [old; old; old] ]}; blocked_users := ∅ |} in
  In phrase limited_kinds
  /\ fst (check_rate_limit sm 7 phrase 86399999999) = false
  /\ fst (check_rate_limit sm 7 phrase 86400000000) = true.
Proof.
  intros old sm.
  assert (Hk : In phrase limited_kinds) by (simpl; tauto).
  split; [exact Hk|]. split.
  - apply (proj1 (C2_rate_limit_admit_iff_below_threshold sm 7 phrase 86399999999 Hk)).
    vm_compute. lia.
  - destruct (fst (check_rate_limit sm 7 phrase 86400000000)) eqn:E; [reflexivity|].
    apply (proj1 (C2_rate_limit_admit_iff_below_threshold sm 7 phrase 86400000000 Hk)) in E.
    vm_compute in E. lia.
Defined.

(** ** The gate, in the words of the specification *)

(** The ordered algorithm of the gate: a blocked subject is refused first,
    then a subject over its limit (severity 3), then the severity decides:
    at least 3 refuses and asks for a block, exactly 2 refuses for manual
    review, at most 1 allows. *)
Definition AbuseGate_evaluate (blocked admitted : bool) (severity : nat)
  : moderation :=
  if blocked then
    {| allowed := false; reason := reason_blocked; suspicion_level := 0;
       auto_block := false |}
  else if negb admitted then
    {| allowed := false; reason := reason_rate_limited; suspicion_level := 3;
       auto_block := false |}
  else if (3 <=? severity)%nat then
    {| allowed := false; reason := reason_suspicious;
       suspicion_level := severity; auto_block := true |}
  else if (severity =? 2)%nat then
    {| allowed := false; reason := reason_manual_review;
       suspicion_level := severity; auto_block := false |}
  else
    {| allowed := true; reason := ""; suspicion_level := severity;
       auto_block := false |}.

Section Gate.
Context `{Unicode}.

(** The matched-pattern count of a text. *)
Definition severity (txt : text) : nat :=
  List.length (check_suspicious_content txt).

Lemma gate_result
    (sm : SecurityManager) (user_id : Z) (txt : text)
    (t_check t_action t_prune : Z) :
  fst (auto_moderate_phrase sm user_id txt t_check t_action t_prune)
  = AbuseGate_evaluate (is_user_blocked sm user_id)
      (fst (check_rate_limit sm user_id phrase t_check))
      (severity txt).
Proof.
  unfold auto_moderate_phrase, AbuseGate_evaluate, severity.
  destruct (is_user_blocked sm user_id); [reflexivity|].
  destruct (check_rate_limit sm user_id phrase t_check) as [ok sm1].
  cbv beta iota zeta delta [fst].
  destruct ok; simpl negb; cbv iota; [|reflexivity].
  destruct (check_suspicious_content txt) as [|p found]; [reflexivity|].
  cbv beta iota zeta.
  destruct (3 <=? List.length (p :: found))%nat eqn:E3; [reflexivity|].
  destruct (2 <=? List.length (p :: found))%nat eqn:E2.
  - apply Nat.leb_gt in E3. apply Nat.leb_le in E2.
    replace (List.length (p :: found) =? 2)%nat with true
      by (symmetry; apply Nat.eqb_eq; lia).
    reflexivity.
  - apply Nat.leb_gt in E2.
    replace (List.length (p :: found) =? 2)%nat with false
      by (symmetry; apply Nat.eqb_neq; lia).
    reflexivity.
Qed.



Lemma log_user_action_history (sm : SecurityManager) (user_id : Z)
    (kind : action_type) (content : text) (t_action t_prune : Z) :
  history (log_user_action sm user_id kind content t_action t_prune) user_id
  = List.filter (fun a => t_prune - days 7 <? a_time a)
      (history sm user_id
       ++ [{| a_type := kind; a_time := t_action;
              a_content := firstn 100 content |}]).
Proof.
  rewrite !history_lookup. unfold log_user_action.
  pose proof (getitem_fst (user_actions sm) user_id) as G.
  destruct (getitem (user_actions sm) user_id) as [acts m]. simpl in G.
  subst acts. unfold getitem at 1. rewrite lookup_insert_eq.
  simpl. rewrite lookup_insert_eq. reflexivity.
Qed.

Lemma log_user_action_blocked (sm : SecurityManager) (user_id : Z)
    (kind : action_type) (content : text) (t_action t_prune : Z) :
  blocked_users (log_user_action sm user_id kind content t_action t_prune)
  = blocked_users sm.
Proof.
  unfold log_user_action.
  destruct (getitem (user_actions sm) user_id) as [acts m].
  destruct (getitem _ user_id) as [acts1 m2]. reflexivity.
Qed.

(** C7. A call of the gate for a blocked subject, or one that the phrase
    rate limit rejects, leaves the subject's history as it was; every other
    call, whatever the severity, appends exactly one record of the
    submission to the history (from which the entries older than seven
    days are dropped at the same time). *)
Theorem C7_rejected_calls_not_recorded_others_once
    (sm : SecurityManager) (user_id : Z) (txt : text)
    (t_check t_action t_prune : Z) :
  let sm' := snd (auto_moderate_phrase sm user_id txt t_check t_action t_prune) in
  (is_user_blocked sm user_id = true -> sm' = sm)
  /\ (is_user_blocked sm user_id = false ->
      fst (check_rate_limit sm user_id phrase t_check) = false ->
      history sm' user_id = history sm user_id)
  /\ (is_user_blocked sm user_id = false ->
      fst (check_rate_limit sm user_id phrase t_check) = true ->
      t_prune - days 7 < t_action ->
      history sm' user_id
      = List.filter (fun a => t_prune - days 7 <? a_time a) (history sm user_id)
        ++ [{| a_type := phrase; a_time := t_action;
               a_content := firstn 100 txt |}]).
Proof.
  unfold auto_moderate_phrase. repeat split.
  - intros Hb. rewrite Hb. reflexivity.
  - intros Hb Hr. rewrite Hb.
    pose proof (check_rate_limit_history sm user_id phrase t_check user_id) as Hh.
    destruct (check_rate_limit sm user_id phrase t_check) as [ok sm1].
    simpl in Hr, Hh. subst ok. simpl. exact Hh.
  - intros Hb Hr Ht. rewrite Hb.
    pose proof (check_rate_limit_history sm user_id phrase t_check user_id) as Hh.
    destruct (check_rate_limit sm user_id phrase t_check) as [ok sm1].
    simpl in Hr, Hh. subst ok. simpl.
    rewrite log_user_action_history, Hh, List.filter_app. f_equal.
    simpl. destruct (Z.ltb_spec (t_prune - days 7) t_action); [reflexivity|lia].
Qed.


End Gate.

Lemma C7_witness :
  let old := {| a_type := phrase; a_time := 5; a_content := u "hello" |} in
  let sm := {| user_actions := {[ 7 := [old]; 9 := [old; old; old] ]};
               blocked_users := {[ 8 ]} |} in
  let new := {| a_type := phrase; a_time := 101; a_content := u "@bob" |} in
  snd (auto_moderate_phrase (H := plain_unicode) sm 8 (u "@bob") 100 101 102) = sm
  /\ history
       (snd (auto_moderate_phrase (H := plain_unicode) sm 9 (u "@bob") 100 101 102))
       9 = [old; old; old]
  /\ history
       (snd (auto_moderate_phrase (H := plain_unicode) sm 7 (u "@bob") 100 101 102))
       7 = [old; new].
Proof.
  intros old sm new. split; [|split].
  - apply (proj1 (C7_rejected_calls_not_recorded_others_once
                    (H := plain_unicode) sm 8 (u "@bob") 100 101 102)).
    vm_compute. reflexivity.
  - apply (proj1 (proj2 (C7_rejected_calls_not_recorded_others_once
                           (H := plain_unicode) sm 9 (u "@bob") 100 101 102))).
    + vm_compute. reflexivity.
    + vm_compute. reflexivity.
  - apply (proj2 (proj2 (C7_rejected_calls_not_recorded_others_once
                           (H := plain_unicode) sm 7 (u "@bob") 100 101 102))).
    + vm_compute. reflexivity.
    + vm_compute. reflexivity.
    + vm_compute. reflexivity.
Defined.



(** ** The long-uppercase-run pattern *)

Definition uppercase_run : pattern := Rx (at_least 10 (Class upper_class)).

(** C9. A text of ten consecutive capital letters and nothing else: the
    long-uppercase-run pattern matches the text as submitted, but
    [check_suspicious_content] searches the lowered text and finds no
    pattern at all, so the count is 0 and not at least 1. *)
Theorem C9_uppercase_run_not_scored `{Unicode} :
  In uppercase_run suspicious_patterns
  /\ search uppercase_run (u "ABCDEFGHIJ") = true
  /\ py_lower (u "ABCDEFGHIJ") = u "abcdefghij"
  /\ check_suspicious_content (u "ABCDEFGHIJ") = []
  /\ severity (u "ABCDEFGHIJ") = 0%nat.
Proof.
  split; [simpl; tauto|]. vm_compute. repeat split; reflexivity.
Qed.

(** The defect does not depend on the text: as long as the lower-case
    mapping of the characters outside the modelled alphabets yields no
    capital letter of the class, the lowered text has none, and the
    long-uppercase-run pattern is never among the patterns found. *)

Lemma match_here_dead (r : regex) (s : text) :
  match_here (Cat Empty r) s = false.
Proof.
  induction s as [|c s IH]; [reflexivity|]. simpl. exact IH.
Qed.

Lemma at_least_no_match (p : Z -> bool) (n : nat) (s : text) :
  Forall (fun c => p c = false) s ->
  re_search (at_least (S n) (Class p)) s = false.
Proof.
  induction 1 as [|c s Hc Hs IH]; [reflexivity|].
  cbn [re_search]. rewrite IH, orb_false_r.
  cbn [match_here at_least nullable deriv andb orb]. rewrite Hc.
  apply match_here_dead.
Qed.

Section Lowered.
Context `{Unicode}.
Hypothesis lower_other_no_capital :
  forall before c after,
    Forall (fun c' => upper_class c' = false) (lower_other before c after).

Lemma lower_char_no_capital (before : text) (c : Z) (after : text) :
  Forall (fun c' => upper_class c' = false) (lower_char before c after).
Proof.
  unfold lower_char, upper_class, in_range.
  repeat match goal with
         | |- context [if ?b then _ else _] => destruct b eqn:?
         end;
    try apply lower_other_no_capital;
    repeat constructor;
    repeat match goal with
           | E : (_ && _) = true |- _ => apply andb_true_iff in E; destruct E
           | E : (_ && _) = false |- _ => apply andb_false_iff in E
           | E : (_ <=? _) = true |- _ => apply Z.leb_le in E
           | E : (_ <=? _) = false |- _ => apply Z.leb_gt in E
           | E : (_ <? _) = true |- _ => apply Z.ltb_lt in E
           | E : (_ <? _) = false |- _ => apply Z.ltb_ge in E
           end;
    apply orb_false_iff; split; apply andb_false_iff;
    rewrite Z.leb_gt, Z.leb_gt; lia.
Qed.

Lemma py_lower_no_capital (s : text) :
  Forall (fun c' => upper_class c' = false) (py_lower s).
Proof.
  unfold py_lower. generalize (@nil Z) as before.
  induction s as [|c s IH]; intros before; [constructor|].
  simpl. apply Forall_app. split; [apply lower_char_no_capital|apply IH].
Qed.

Lemma uppercase_run_never_found (txt : text) :
  ~ In uppercase_run (check_suspicious_content txt).
Proof.
  unfold check_suspicious_content. intros Hin.
  apply List.filter_In in Hin. destruct Hin as [_ Hs].
  unfold uppercase_run, search in Hs.
  rewrite at_least_no_match in Hs by apply py_lower_no_capital.
  discriminate Hs.
Qed.

End Lowered.

(** * Properties of the batched delivery engine *)

Import Scheduler.

(** The events a computation added to the trace are those after the ones
    that were there. *)
Definition extends (w w' : World) (evs : list event) : Prop :=
  trace w' = trace w ++ evs.

Lemma extends_refl (w : World) : extends w w [].
Proof. unfold extends. rewrite app_nil_r. reflexivity. Qed.

Lemma extends_trans (w1 w2 w3 : World) (e1 e2 : list event) :
  extends w1 w2 e1 -> extends w2 w3 e2 -> extends w1 w3 (e1 ++ e2).
Proof.
  unfold extends. intros E1 E2. rewrite E2, E1, app_assoc. reflexivity.
Qed.

(** ** Counting the results of a batch *)

(** A result that the loop of [_send_batch] counts as sent. *)
Definition counts_as_sent (r : bool + exn) : bool :=
  match r with
  | inl b => b
  | inr e => negb (is_Exception e)
  end.

Definition counts_as_failed (r : bool + exn) : bool :=
  negb (counts_as_sent r).

Definition count_step (acc : nat * nat) (ur : Z * (bool + exn)) : nat * nat :=
  let '(sent_count, failed_count) := acc in
  match snd ur with
  | inr e =>
    if is_Exception e then (sent_count, S failed_count)
    else (S sent_count, failed_count)
  | inl true => (S sent_count, failed_count)
  | inl false => (sent_count, S failed_count)
  end.

Lemma count_fold (urs : list (Z * (bool + exn))) (s f : nat) :
  fold_left count_step urs (s, f)
  = ((s + List.length (List.filter counts_as_sent (map snd urs)))%nat,
     (f + List.length (List.filter counts_as_failed (map snd urs)))%nat).
Proof.
  revert s f. induction urs as [|[uid r] urs IH]; intros s f.
  - simpl. f_equal; lia.
  - change (fold_left count_step ((uid, r) :: urs) (s, f))
      with (fold_left count_step urs (count_step (s, f) (uid, r))).
    assert (E : count_step (s, f) (uid, r)
                = if counts_as_sent r then (S s, f) else (s, S f))
      by (destruct r as [[|]|e]; [| |destruct e]; reflexivity).
    rewrite E. simpl map. simpl List.filter. unfold counts_as_failed at 1.
    destruct (counts_as_sent r); rewrite IH; simpl; f_equal; lia.
Qed.

Lemma count_results_spec (user_ids : list Z) (results : list (bool + exn)) :
  List.length results = List.length user_ids ->
  count_results user_ids results
  = (List.length (List.filter counts_as_sent results),
     List.length (List.filter counts_as_failed results)).
Proof.
  intros L. unfold count_results.
  change (fold_left _ (combine user_ids results) (0%nat, 0%nat))
    with (fold_left count_step (combine user_ids results) (0%nat, 0%nat)).
  rewrite count_fold.
  assert (E : map snd (combine user_ids results) = results).
  { clear -L. revert user_ids L.
    induction results as [|r rs IH]; intros [|x xs] L; simpl in *;
      try discriminate; try reflexivity.
    f_equal. apply IH. lia. }
  rewrite E. reflexivity.
Qed.

Lemma sent_plus_failed (results : list (bool + exn)) :
  (List.length (List.filter counts_as_sent results)
   + List.length (List.filter counts_as_failed results))%nat
  = List.length results.
Proof.
  induction results as [|r rs IH]; [reflexivity|].
  simpl. unfold counts_as_failed at 1.
  destruct (counts_as_sent r); simpl; lia.
Qed.

Lemma gather_length {A} (tasks : list (M A)) (w : World) :
  List.length (fst (gather tasks w)) = List.length tasks.
Proof.
  revert w. induction tasks as [|t ts IH]; intros w; [reflexivity|].
  simpl. destruct (t w) as [r w1]. specialize (IH w1).
  destruct (gather ts w1) as [rs w2]. simpl in *. rewrite IH. reflexivity.
Qed.

Section Delivery.
Context `{Unicode}.

(** What holds of the counts of a batch: their sum is the number of
    recipients, each result is counted once, and a result that is an
    instance of [Exception] is counted as failed. *)
Lemma batch_counts_partition
    (user_ids : list Z) (txt : text) (w : World) :
  let tasks := map (fun user_id => _send_to_user user_id txt) user_ids in
  let results := fst (gather tasks w) in
  exists sent_count failed_count w',
    _send_batch user_ids txt w = (Ok (sent_count, failed_count), w')
    /\ (sent_count + failed_count)%nat = List.length user_ids
    /\ List.length results = List.length user_ids
    /\ sent_count = List.length (List.filter counts_as_sent results)
    /\ failed_count = List.length (List.filter counts_as_failed results)
    /\ (forall e, is_Exception e = true -> counts_as_failed (inr e) = true).
Proof.
  intros tasks results.
  assert (L : List.length results = List.length user_ids).
  { unfold results. rewrite gather_length. unfold tasks.
    apply List.length_map. }
  unfold _send_batch. fold tasks.
  destruct (gather tasks w) as [rs w'] eqn:G.
  unfold results in *. simpl fst in *.
  exists (List.length (List.filter counts_as_sent rs)),
         (List.length (List.filter counts_as_failed rs)), w'.
  split; [rewrite (count_results_spec _ _ L); reflexivity|].
  split; [rewrite sent_plus_failed; exact L|].
  split; [exact L|]. split; [reflexivity|]. split; [reflexivity|].
  intros e He. unfold counts_as_failed, counts_as_sent. rewrite He. reflexivity.
Qed.


(** A world in which the transport answers the [k]-th send by [e] and
    delivers every other message, and no sleep is interrupted. *)
Definition world_answering (users : list Z) (k : nat) (e : exn) : World :=
  {| send_script := fun i => if (i =? k)%nat then Some e else None;
     sleep_script := fun _ => None;
     clock := fun i => inject_Z (Z.of_nat i);
     active_users := users;
     random_phrase := Some (u "hi");
     sends := 0; sleeps := 0; ticks := 0; trace := [] |}.

(** C10. The counts of a batch add up to the number of recipients and
    every result is counted once, but a worker that raises is not always
    counted as a failure.  With recipients 1, 2 and 3 and the delivery to 2
    ended by [CancelledError] (its send never returned), the result of
    that worker in the list of [gather] is the exception, which is not an
    instance of [Exception] and is truthy: [_send_batch] returns 3 sent
    and 0 failed, although only two messages were delivered and nothing
    was logged for recipient 2.  The same holds of every result that is a
    [CancelledError]. *)
Theorem C10_cancelled_worker_counted_as_sent :
  let w := world_answering [1; 2; 3] 1 CancelledError in
  let out := _send_batch [1; 2; 3] (u "hi") w in
  fst (gather (map (fun user_id => _send_to_user user_id (u "hi")) [1; 2; 3]) w)
  = [inl true; inr CancelledError; inl true]
  /\ fst out = Ok (3, 0)%nat
  /\ List.filter (fun e => match e with EvLog _ _ _ _ => true | _ => false end)
                 (trace (snd out))
     = [EvLog 1 0 "sent" None; EvLog 3 0 "sent" None]
  /\ (forall user_ids results user_id,
        List.length results = List.length user_ids ->
        count_results (user_ids ++ [user_id]) (results ++ [inr CancelledError])
        = (S (fst (count_results user_ids results)),
           snd (count_results user_ids results)))
  /\ (forall user_ids txt w',
        let out' := _send_batch user_ids txt w' in
        exists sent_count failed_count,
          fst out' = Ok (sent_count, failed_count)
          /\ (sent_count + failed_count)%nat = List.length user_ids).
Proof.
  split; [vm_compute; reflexivity|].
  split; [vm_compute; reflexivity|].
  split; [vm_compute; reflexivity|].
  split.
  - intros user_ids results user_id L.
    assert (L2 : List.length (results ++ [inr CancelledError])
                 = List.length (user_ids ++ [user_id]))
      by (rewrite !List.length_app; simpl; lia).
    rewrite (count_results_spec _ _ L2), (count_results_spec _ _ L).
    rewrite !List.filter_app, !List.length_app. simpl. f_equal; lia.
  - intros user_ids txt w'. cbv zeta.
    destruct (batch_counts_partition user_ids txt w')
      as (s & f & w2 & E & Hsum & _).
    exists s, f. rewrite E. split; [reflexivity|exact Hsum].
Qed.

End Delivery.

Section Retry.
Context `{Unicode}.

(** The events of a delivery whose first send was answered by an error of
    the transport that is neither the rate-limit signal nor the
    blocked-the-bot signal. *)
Definition other_error_events (user_id : Z) (txt : text) (e : exn)
  : list event :=
  match e with
  | ChatMigrated _ _ => [EvSend user_id txt]
  | TelegramError m =>
    [EvSend user_id txt; EvLog user_id 0 "failed" (Some m)]
    ++ (if contains (u "blocked") (py_lower m) then [EvInactive user_id] else [])
  | _ => [EvSend user_id txt; EvLog user_id 0 "failed" (Some (exn_str e))]
  end.

Definition is_other_error (e : exn) : bool :=
  match e with
  | ChatMigrated _ _ | TelegramError _ | PyException _ => true
  | _ => false
  end.

(** Number of calls of [bot.send_message] among the events. *)
Definition send_count (evs : list event) : nat :=
  List.length
    (List.filter (fun e => match e with EvSend _ _ => true | _ => false end) evs).

(** C4. One delivery to one recipient.  When the first send is answered by
    the rate-limit signal with retry-after [T], the worker sleeps
    [min(T, 60)] seconds and sends once more: it returns success when that
    second send succeeds, and failure, without a third send, when it fails
    again.  When the first send is answered by the blocked-the-bot signal,
    the worker does not send again, marks the recipient inactive and
    returns failure.  On any other error of the transport it does not send
    again and returns failure. *)
Theorem C4_delivery_retry_policy (user_id : Z) (txt : text) (w : World) :
  let out := _send_to_user user_id txt w in
  (forall T m, send_script w (sends w) = Some (RetryAfter T m) ->
     sleep_script w (sleeps w) = None ->
     (send_script w (S (sends w)) = None ->
        fst out = Ok true
        /\ extends w (snd out)
             [EvSend user_id txt; EvSleep (inject_Z (Z.min T 60));
              EvSend user_id txt; EvLog user_id 0 "sent" None])
     /\ (forall e, send_script w (S (sends w)) = Some e ->
           is_Exception e = true ->
           fst out = Ok false
           /\ extends w (snd out)
                [EvSend user_id txt; EvSleep (inject_Z (Z.min T 60));
                 EvSend user_id txt;
                 EvLog user_id 0 "failed" (Some (exn_str e))])
     /\ sends (snd out) = S (S (sends w)))
  /\ (forall m, send_script w (sends w) = Some (Forbidden m) ->
        fst out = Ok false
        /\ extends w (snd out) [EvSend user_id txt; EvInactive user_id]
        /\ sends (snd out) = S (sends w))
  /\ (forall e, send_script w (sends w) = Some e ->
        is_other_error e = true ->
        fst out = Ok false
        /\ extends w (snd out) (other_error_events user_id txt e)
        /\ send_count (other_error_events user_id txt e) = 1%nat
        /\ sends (snd out) = S (sends w)).
Proof.
  unfold extends.
  cbv beta iota zeta delta
    [_send_to_user try_except bind ret raise send_message sleep
     log_notification mark_user_inactive emit].
  split; [|split].
  - intros T m E1 Es. rewrite E1. cbn [sends sleeps trace send_script sleep_script].
    rewrite Es. cbn [sends sleeps trace send_script sleep_script].
    split; [|split].
    + intros E2. rewrite E2. cbn. rewrite <- !app_assoc. split; reflexivity.
    + intros e E2 He. rewrite E2. cbn. rewrite He. cbn.
      rewrite <- !app_assoc. split; reflexivity.
    + destruct (send_script w (S (sends w))) as [e|]; cbn; [|reflexivity].
      destruct (is_Exception e); reflexivity.
  - intros m E1. rewrite E1. cbn. rewrite <- !app_assoc.
    repeat split; reflexivity.
  - intros e E1 He. rewrite E1.
    destruct e; try discriminate He.
    + cbn. repeat split; reflexivity.
    + unfold other_error_events. cbn [exn_str].
      set (b := contains _ _). destruct b; cbn;
        rewrite <- !app_assoc; repeat split; reflexivity.
    + cbn. rewrite <- !app_assoc. repeat split; reflexivity.
Qed.

End Retry.

Section Run.
Context `{Unicode}.

(** The [try] body never touches the flag. *)
Lemma run_try_flag (start_time : Q) (sch : Scheduler) (w : World) :
  is_sending (snd (fst (run_try start_time sch w))) = is_sending sch.
Proof.
  unfold run_try.
  destruct (active_users w) as [|x users]; [reflexivity|].
  destruct (random_phrase w) as [[|c txt]|]; try reflexivity.
  destruct (dispatch _ 1 _ _ 0 0 w) as [[[[]|e] [s f]] w1]; reflexivity.
Qed.


(** *** Triggers that fire during a run

    The scheduler object is shared by all the jobs.  While a run is
    suspended at an [await], the event loop runs other work, and a trigger
    that fires then calls [send_batch_notification] on the same scheduler.
    The run has an [await] for each query of the database, for each batch
    and for each cooldown; between the test of the flag and its
    assignment there is none.  The awaited code does not touch the
    scheduler, so a trigger that fires at any moment of an [await] finds
    the scheduler as it is when the run suspends. *)

(** A trigger fires: the job calls [send_batch_notification]; what the
    call returns goes to the executor of the job. *)
Definition trigger (st : Scheduler * World) : Scheduler * World :=
  let '(_, sch', w') := send_batch_notification (fst st) (snd st) in
  (sch', w').

(** The run is suspended at its [k]-th [await] and [fires k] triggers fire
    meanwhile. *)
Definition suspended (fires : nat -> nat) (k : nat) (sch : Scheduler)
    (w : World) : Scheduler * World :=
  Nat.iter (fires k) trigger (sch, w).

(** The loop of [send_batch_notification] with its suspensions.  [k]
    numbers the [await]s; [seen] collects the scheduler as the triggers of
    each [await] find it. *)
Fixpoint dispatch_suspending (fires : nat -> nat) (total batch_num : nat)
    (batches : list (list Z)) (txt : text) (sent_count failed_count : nat)
    (k : nat) (sch : Scheduler) (w : World) (seen : list Scheduler)
  : result unit * (nat * nat) * Scheduler * World * list Scheduler :=
  match batches with
  | [] => (Ok tt, (sent_count, failed_count), sch, w, seen)
  | batch_users :: rest =>
    let w0 := emit (EvBatch batch_num total (List.length batch_users)) w in
    let seen1 := seen ++ [sch] in
    let '(sch1, w1) := suspended fires k sch w0 in
    match _send_batch batch_users txt w1 with
    | (Raise e, w2) => (Raise e, (sent_count, failed_count), sch1, w2, seen1)
    | (Ok (batch_sent, batch_failed), w2) =>
      let sent_count' := (sent_count + batch_sent)%nat in
      let failed_count' := (failed_count + batch_failed)%nat in
      if (batch_num <? total)%nat then
        let seen2 := seen1 ++ [sch1] in
        let '(sch2, w3) := suspended fires (S k) sch1 w2 in
        match sleep batch_delay w3 with
        | (Raise e, w4) =>
          (Raise e, (sent_count', failed_count'), sch2, w4, seen2)
        | (Ok _, w4) =>
          dispatch_suspending fires total (S batch_num) rest txt
                              sent_count' failed_count' (S (S k)) sch2 w4 seen2
        end
      else
        dispatch_suspending fires total (S batch_num) rest txt
                            sent_count' failed_count' (S k) sch1 w2 seen1
    end
  end.

(** The body of the [try] with its suspensions. *)
Definition run_try_suspending (fires : nat -> nat) (start_time : Q)
    (sch : Scheduler) (w : World)
  : result unit * (nat * nat) * Scheduler * World * list Scheduler :=
  let seen1 := [sch] in
  let '(sch1, w1) := suspended fires 0 sch w in
  let users := active_users w1 in
  let seen2 := seen1 ++ [sch1] in
  let '(sch2, w2) := suspended fires 1 sch1 w1 in
  let phrase := random_phrase w2 in
  match users with
  | [] => (Ok tt, (0, 0)%nat, sch2, w2, seen2)
  | _ :: _ =>
    match phrase with
    | None | Some [] => (Ok tt, (0, 0)%nat, sch2, w2, seen2)
    | Some txt =>
      let sch3 :=
        {| notification_count := S (notification_count sch2);
           is_sending := is_sending sch2;
           stats := stats sch2 |} in
      let batches := make_batches users batch_size in
      match dispatch_suspending fires (List.length batches) 1 batches txt
                                0 0 2 sch3 w2 seen2 with
      | (Raise e, counters, sch4, w3, seen3) =>
        (Raise e, counters, sch4, w3, seen3)
      | (Ok _, (sent_count, failed_count), sch4, w3, seen3) =>
        let '(t_end, w4) := time w3 in
        let elapsed_time := (t_end - start_time)%Q in
        (Ok tt, (sent_count, failed_count),
         {| notification_count := notification_count sch4;
            is_sending := is_sending sch4;
            stats := update_stats (stats sch4) sent_count failed_count
                                  elapsed_time |},
         w4, seen3)
      end
    end
  end.

(** [send_batch_notification] with the triggers that fire while it is
    suspended. *)
Definition send_batch_notification_suspending (fires : nat -> nat)
    (sch : Scheduler) (w : World)
  : result unit * Scheduler * World * list Scheduler :=
  if is_sending sch then (Ok tt, sch, w, [])
  else
    let sch1 := set_sending true sch in
    let '(start_time, w1) := time w in
    let '(r, _, sch2, w2, seen) := run_try_suspending fires start_time sch1 w1 in
    let r' :=
      match r with
      | Ok _ => Ok tt
      | Raise e => if is_Exception e then Ok tt else Raise e
      end in
    (r', set_sending false sch2, w2, seen).

Lemma trigger_dropped (sch : Scheduler) (w : World) :
  is_sending sch = true -> trigger (sch, w) = (sch, w).
Proof.
  intros E. unfold trigger, send_batch_notification. simpl. rewrite E.
  reflexivity.
Qed.

Lemma suspended_dropped (fires : nat -> nat) (k : nat) (sch : Scheduler)
    (w : World) :
  is_sending sch = true -> suspended fires k sch w = (sch, w).
Proof.
  intros E. unfold suspended. induction (fires k) as [|n IH]; [reflexivity|].
  simpl. rewrite IH. apply trigger_dropped. exact E.
Qed.

Lemma dispatch_suspending_flagged (fires : nat -> nat) (total : nat)
    (txt : text) (batches : list (list Z)) :
  forall batch_num s f k sch w seen,
    is_sending sch = true ->
    exists n,
      dispatch_suspending fires total batch_num batches txt s f k sch w seen
      = (fst (dispatch total batch_num batches txt s f w), sch,
         snd (dispatch total batch_num batches txt s f w),
         seen ++ repeat sch n).
Proof.
  induction batches as [|b rest IH]; intros batch_num s f k sch w seen E.
  - exists 0%nat. simpl. rewrite app_nil_r. reflexivity.
  - cbn [dispatch_suspending dispatch]. unfold bind, log_batch.
    cbv beta iota zeta.
    rewrite (suspended_dropped fires k sch _ E).
    destruct (_send_batch b txt (emit (EvBatch batch_num total (List.length b)) w))
      as [[[bs_ bf_]|e] w2].
    + destruct (batch_num <? total)%nat.
      * rewrite (suspended_dropped fires (S k) sch _ E).
        destruct (sleep batch_delay w2) as [[[]|e] w4].
        -- destruct (IH (S batch_num) (s + bs_)%nat (f + bf_)%nat (S (S k)) sch w4
                        ((seen ++ [sch]) ++ [sch]) E) as [n Hn].
           exists (S (S n)). rewrite Hn.
           replace (((seen ++ [sch]) ++ [sch]) ++ repeat sch n)
             with (seen ++ repeat sch (S (S n)))
             by (simpl; rewrite <- !app_assoc; reflexivity).
           reflexivity.
        -- exists 2%nat. simpl. rewrite <- !app_assoc. reflexivity.
      * unfold ret.
        destruct (IH (S batch_num) (s + bs_)%nat (f + bf_)%nat (S k) sch w2
                     (seen ++ [sch]) E) as [n Hn].
        exists (S n). rewrite Hn.
        replace ((seen ++ [sch]) ++ repeat sch n)
          with (seen ++ repeat sch (S n))
          by (simpl; rewrite <- !app_assoc; reflexivity).
        reflexivity.
    + exists 1%nat. simpl. reflexivity.
Qed.

(** C1. An invocation that finds the flag set returns at once: nothing is
    sent (the world, with its trace, is as before) and nothing is queued
    (the scheduler is as before).  An invocation that finds the flag free
    takes it before its first [await]: at every [await] of the run, the
    two queries of the database included, the triggers that fire find the
    flag set, so each of them is dropped and the run goes on to the same
    outcome, scheduler and trace as if none had fired - no second run
    starts inside the first.  When the invocation ends, whether it
    returns or lets an exception through, the flag is false. *)
Theorem C1_single_run_flag (sch : Scheduler) (w : World) :
  (is_sending sch = true ->
     send_batch_notification sch w = (Ok tt, sch, w))
  /\ (is_sending sch = false ->
        forall fires : nat -> nat,
          let out := send_batch_notification_suspending fires sch w in
          fst out = send_batch_notification sch w
          /\ Forall (fun seen => is_sending seen = true) (snd out)
          /\ (2 <= List.length (snd out))%nat
          /\ is_sending (snd (fst (fst out))) = false).
Proof.
  split.
  - intros E. unfold send_batch_notification. rewrite E. reflexivity.
  - intros E fires. cbv zeta.
    unfold send_batch_notification_suspending, send_batch_notification.
    rewrite E. destruct (time w) as [start_time w1].
    set (sch1 := set_sending true sch).
    assert (E1 : is_sending sch1 = true) by reflexivity.
    unfold run_try_suspending, run_try.
    rewrite (suspended_dropped fires 0 sch1 w1 E1).
    rewrite (suspended_dropped fires 1 sch1 w1 E1).
    destruct (active_users w1) as [|x users].
    { simpl. repeat split; try reflexivity; try lia.
      repeat constructor. }
    destruct (random_phrase w1) as [[|c txt]|];
      try (simpl; repeat split; try reflexivity; try lia;
           repeat constructor; fail).
    set (sch3 := {| notification_count := S (notification_count sch1);
                    is_sending := is_sending sch1; stats := stats sch1 |}).
    assert (E3 : is_sending sch3 = true) by reflexivity.
    set (batches := make_batches (x :: users) batch_size).
    destruct (dispatch_suspending_flagged fires (List.length batches) (c :: txt)
                batches 1 0 0 2 sch3 w1 ([sch1] ++ [sch1]) E3) as [n Hn].
    rewrite Hn. clear Hn.
    destruct (dispatch (List.length batches) 1 batches (c :: txt) 0 0 w1)
      as [[r [s f]] w3].
    simpl.
    assert (Hseen : Forall (fun seen => is_sending seen = true)
                      (sch1 :: sch1 :: repeat sch3 n)).
    { constructor; [exact E1|]. constructor; [exact E1|].
      apply List.Forall_forall. intros y Hy.
      apply List.repeat_spec in Hy. subst y. exact E3. }
    destruct r as [[]|e]; simpl;
      (split; [reflexivity|]); (split; [exact Hseen|]);
      (split; [lia|reflexivity]).
Qed.


End Run.

(** A world of [n] active users in which every send succeeds and the
    [k]-th sleep is interrupted by an exception. *)
Definition world_with_fault (n k : nat) : World :=
  {| send_script := fun _ => None;
     sleep_script :=
       fun i => if (i =? k)%nat then Some (PyException (u "boom")) else None;
     clock := fun i => inject_Z (Z.of_nat i);
     active_users := map Z.of_nat (seq 1 n);
     random_phrase := Some (u "hi");
     sends := 0; sleeps := 0; ticks := 0; trace := [] |}.



Lemma C1_witness :
  let busy := set_sending true init in
  let w := world_with_fault 51 50 in
  let fires := fun k : nat => (k + 1)%nat in
  send_batch_notification (H := plain_unicode) busy w = (Ok tt, busy, w)
  /\ snd (send_batch_notification_suspending (H := plain_unicode) fires init w)
     = [set_sending true init; set_sending true init;
        {| notification_count := 1; is_sending := true; stats := stats init |};
        {| notification_count := 1; is_sending := true; stats := stats init |}]
  /\ fst (send_batch_notification_suspending (H := plain_unicode) fires init w)
     = send_batch_notification (H := plain_unicode) init w.
Proof.
  intros busy w fires. split; [|split].
  - apply (proj1 (C1_single_run_flag (H := plain_unicode) busy w)).
    reflexivity.
  - vm_compute. reflexivity.
  - apply (proj2 (C1_single_run_flag (H := plain_unicode) init w) eq_refl fires).
Defined.

(** ** Partition into batches *)

Lemma range0_succ (n size : nat) :
  (0 < size)%nat -> (0 < n)%nat ->
  range0 n size = 0%nat :: map (fun i => size + i)%nat (range0 (n - size) size).
Proof.
  intros Hs Hn. unfold range0.
  assert (E : ((n + size - 1) / size = S ((n - size + size - 1) / size))%nat).
  { replace (n + size - 1)%nat with ((n - 1) + 1 * size)%nat by lia.
    rewrite Nat.div_add by lia.
    destruct (Nat.le_gt_cases size n) as [Hle|Hgt].
    - replace (n - size + size - 1)%nat with (n - 1)%nat by lia. lia.
    - replace (n - size + size - 1)%nat with (size - 1)%nat by lia.
      rewrite (Nat.div_small (n - 1)), (Nat.div_small (size - 1)) by lia.
      reflexivity. }
  rewrite E. simpl seq. simpl map. f_equal.
  rewrite <- List.seq_shift, !List.map_map.
  apply List.map_ext. intros k. simpl. reflexivity.
Qed.

Lemma make_batches_nil (size : nat) :
  (0 < size)%nat -> make_batches [] size = [].
Proof.
  intros Hs. unfold make_batches, range0. simpl List.length.
  rewrite Nat.div_small by lia. reflexivity.
Qed.

Lemma make_batches_cons (users : list Z) (size : nat) :
  (0 < size)%nat -> users <> [] ->
  make_batches users size
  = firstn size users :: make_batches (skipn size users) size.
Proof.
  intros Hs Hu. unfold make_batches.
  rewrite range0_succ; [|exact Hs|destruct users; [congruence|simpl; lia]].
  simpl map. f_equal.
  - unfold slice. simpl skipn. f_equal. lia.
  - rewrite length_drop, List.map_map. apply List.map_ext. intros i.
    unfold slice. rewrite drop_drop. f_equal. lia.
Qed.

(** Every batch is full, except that the last one may be smaller (and is
    not empty). *)
Fixpoint full_except_last (size : nat) (bs : list (list Z)) : Prop :=
  match bs with
  | [] => True
  | b :: rest =>
    match rest with
    | [] => (1 <= List.length b <= size)%nat
    | _ :: _ => List.length b = size /\ full_except_last size rest
    end
  end.

Lemma make_batches_partition (size : nat) (users : list Z) :
  (0 < size)%nat ->
  concat (make_batches users size) = users
  /\ full_except_last size (make_batches users size).
Proof.
  intros Hs. remember (List.length users) as n eqn:En.
  revert users En. induction n as [n IH] using lt_wf_ind. intros users En.
  destruct users as [|x users'].
  - rewrite make_batches_nil by exact Hs. split; [reflexivity|exact I].
  - remember (x :: users') as users eqn:Eu.
    assert (Hpos : (0 < List.length users)%nat) by (subst users; simpl; lia).
    assert (Hne : users <> []) by (subst users; discriminate).
    clear Eu x users'.
    rewrite (make_batches_cons users size Hs Hne).
    destruct (IH (List.length (skipn size users))
                 ltac:(rewrite length_drop; lia)
                 (skipn size users) eq_refl) as [Hc Hf].
    split.
    + simpl concat. rewrite Hc. apply take_drop.
    + simpl full_except_last.
      destruct (Nat.le_gt_cases (List.length users) size) as [Hle|Hgt].
      * rewrite (drop_ge users size Hle), make_batches_nil by exact Hs.
        rewrite (take_ge users size Hle). lia.
      * assert (Hd : skipn size users <> []).
        { intros E. apply (f_equal (@List.length Z)) in E.
          rewrite length_drop in E. cbn [List.length] in E. lia. }
        rewrite (make_batches_cons _ size Hs Hd) in Hf |- *.
        split; [rewrite length_take; lia|exact Hf].
Qed.

Lemma make_batches_lengths (users : list Z) (size : nat) :
  map (@List.length Z) (make_batches users size)
  = map (fun i => Nat.min size (List.length users - i))
        (range0 (List.length users) size).
Proof.
  unfold make_batches. rewrite List.map_map. apply List.map_ext. intros i.
  unfold slice. rewrite length_take, length_drop. f_equal. lia.
Qed.

(** ** The order of the events of a run *)

(** An event of the delivery to one of the recipients [b]: a send, a log
    entry or a deactivation for one of them, or a pause of a worker (the
    pacing delay, or the wait after a rate-limit signal). *)
Definition belongs (b : list Z) (e : event) : Prop :=
  match e with
  | EvSend chat_id _ => In chat_id b
  | EvLog user_id _ _ _ => In user_id b
  | EvInactive user_id => In user_id b
  | EvSleep d => d = message_delay \/ exists T, d = inject_Z (Z.min T 60)
  | EvBatch _ _ _ => False
  end.

(** The pause that follows a batch: the cooldown, unless the batch is the
    last. *)
Definition pause_before (rest : list (list Z)) : list event :=
  match rest with
  | [] => []
  | _ :: _ => [EvSleep batch_delay]
  end.

(** The events of a run come batch by batch, in the order of the batches:
    the announcement of the batch, then events of its recipients only, then
    the cooldown if another batch follows. *)
Fixpoint batch_by_batch (total k : nat) (bs : list (list Z))
    (evs : list event) : Prop :=
  match bs with
  | [] => evs = []
  | b :: rest =>
    exists work evs',
      evs = EvBatch k total (List.length b) :: work ++ pause_before rest ++ evs'
      /\ Forall (belongs b) work
      /\ batch_by_batch total (S k) rest evs'
  end.

(** Every event a computation adds satisfies [P]. *)
Definition emits {A} (P : event -> Prop) (m : M A) : Prop :=
  forall w, exists evs, extends w (snd (m w)) evs /\ Forall P evs.

Lemma emits_ret {A} (P : event -> Prop) (a : A) : emits P (ret a).
Proof. intros w. exists []. split; [apply extends_refl|constructor]. Qed.

Lemma emits_raise {A} (P : event -> Prop) (e : exn) : emits P (@raise A e).
Proof. intros w. exists []. split; [apply extends_refl|constructor]. Qed.

Lemma emits_bind {A B} (P : event -> Prop) (m : M A) (k : A -> M B) :
  emits P m -> (forall a, emits P (k a)) -> emits P (bind m k).
Proof.
  intros Hm Hk w. unfold bind. destruct (Hm w) as (e1 & X1 & F1).
  destruct (m w) as [[a|e] w1]; simpl in X1.
  - destruct (Hk a w1) as (e2 & X2 & F2). exists (e1 ++ e2). split.
    + eapply extends_trans; eassumption.
    + apply Forall_app. split; assumption.
  - exists e1. split; assumption.
Qed.

Lemma emits_try {A} (P : event -> Prop) (body : M A) (handler : exn -> M A) :
  emits P body -> (forall e, emits P (handler e)) ->
  emits P (try_except body handler).
Proof.
  intros Hm Hk w. unfold try_except. destruct (Hm w) as (e1 & X1 & F1).
  destruct (body w) as [[a|e] w1]; simpl in X1.
  - exists e1. split; assumption.
  - destruct (Hk e w1) as (e2 & X2 & F2). exists (e1 ++ e2). split.
    + eapply extends_trans; eassumption.
    + apply Forall_app. split; assumption.
Qed.

Lemma emits_send (P : event -> Prop) (chat_id : Z) (txt : text) :
  P (EvSend chat_id txt) -> emits P (send_message chat_id txt).
Proof.
  intros HP w. exists [EvSend chat_id txt]. split; [|repeat constructor; exact HP].
  unfold send_message, extends.
  destruct (send_script w (sends w)); reflexivity.
Qed.

Lemma emits_sleep (P : event -> Prop) (d : Q) :
  P (EvSleep d) -> emits P (sleep d).
Proof.
  intros HP w. exists [EvSleep d]. split; [|repeat constructor; exact HP].
  unfold sleep, extends.
  destruct (sleep_script w (sleeps w)); reflexivity.
Qed.

Lemma emits_log (P : event -> Prop) (user_id phrase_id : Z) (status : string)
    (error : option text) :
  P (EvLog user_id phrase_id status error) ->
  emits P (log_notification user_id phrase_id status error).
Proof.
  intros HP w. exists [EvLog user_id phrase_id status error].
  split; [reflexivity|repeat constructor; exact HP].
Qed.

Lemma emits_inactive (P : event -> Prop) (user_id : Z) :
  P (EvInactive user_id) -> emits P (mark_user_inactive user_id).
Proof.
  intros HP w. exists [EvInactive user_id].
  split; [reflexivity|repeat constructor; exact HP].
Qed.

Create HintDb emits.
#[export] Hint Resolve emits_ret emits_raise emits_send emits_sleep emits_log
  emits_inactive : emits.

Section Order.
Context `{Unicode}.

Lemma send_to_user_emits (b : list Z) (user_id : Z) (txt : text) :
  In user_id b -> emits (belongs b) (_send_to_user user_id txt).
Proof.
  intros Hin.
  assert (Hpace : belongs b (EvSleep message_delay)) by (left; reflexivity).
  assert (Hwait : forall T, belongs b (EvSleep (inject_Z (Z.min T 60))))
    by (intros T; right; exists T; reflexivity).
  unfold _send_to_user.
  apply emits_try.
  - repeat (apply emits_bind; [|intros ?]); auto with emits.
  - intros e. destruct e;
      repeat first
        [ apply emits_bind; [|intros ?]
        | apply emits_try; [|intros ?]
        | match goal with
          | |- emits _ (if ?c then _ else _) => destruct c
          end
        | solve [auto with emits] ].
Qed.

Lemma gather_emits (b : list Z) (txt : text) (user_ids : list Z) (w : World) :
  (forall x, In x user_ids -> In x b) ->
  exists evs,
    extends w
      (snd (gather (map (fun user_id => _send_to_user user_id txt) user_ids) w))
      evs
    /\ Forall (belongs b) evs.
Proof.
  revert w. induction user_ids as [|x xs IH]; intros w Hsub.
  - exists []. split; [apply extends_refl|constructor].
  - simpl.
    destruct (send_to_user_emits b x txt (Hsub x (or_introl eq_refl)) w)
      as (e1 & X1 & F1).
    destruct (_send_to_user x txt w) as [r w1]. simpl in X1.
    destruct (IH w1 (fun y Hy => Hsub y (or_intror Hy))) as (e2 & X2 & F2).
    destruct (gather _ w1) as [rs w2]. simpl in X2 |- *.
    exists (e1 ++ e2). split.
    + eapply extends_trans; eassumption.
    + apply Forall_app. split; assumption.
Qed.

Lemma send_batch_emits (b : list Z) (txt : text) :
  emits (belongs b) (_send_batch b txt).
Proof.
  intros w. unfold _send_batch.
  destruct (gather_emits b txt b w (fun x Hx => Hx)) as (evs & X & F).
  destruct (gather _ w) as [rs w']. simpl in X |- *.
  exists evs. split; assumption.
Qed.

Lemma dispatch_order (total : nat) (bs : list (list Z)) :
  forall (k : nat) (txt : text) (s f : nat) (w : World)
         (counters : nat * nat) (w' : World),
    (k + List.length bs = S total)%nat ->
    dispatch total k bs txt s f w = (Ok tt, counters, w') ->
    exists evs, extends w w' evs /\ batch_by_batch total k bs evs.
Proof.
  induction bs as [|b rest IH]; intros k txt s f w counters w' Hk Hd.
  - simpl in Hd. inversion Hd; subst. exists []. split; [apply extends_refl|].
    reflexivity.
  - simpl dispatch in Hd. unfold bind at 1 in Hd. unfold log_batch in Hd.
    destruct (send_batch_emits b txt (emit (EvBatch k total (List.length b)) w))
      as (work & Xw & Fw).
    destruct (_send_batch b txt _) as [[[bs_ bf_]|e] w1]; [|discriminate].
    simpl snd in Xw.
    assert (Hp : exists w2,
               extends w1 w2 (pause_before rest)
               /\ dispatch total (S k) rest txt (s + bs_) (f + bf_) w2
                  = (Ok tt, counters, w')).
    { destruct rest as [|b2 rest'].
      - replace (k <? total)%nat with false in Hd
          by (symmetry; apply Nat.ltb_ge; simpl in Hk; lia).
        exists w1. split; [apply extends_refl|exact Hd].
      - replace (k <? total)%nat with true in Hd
          by (symmetry; apply Nat.ltb_lt; simpl in Hk; lia).
        unfold sleep in Hd.
        destruct (sleep_script w1 (sleeps w1)); [discriminate|].
        eexists. split; [|exact Hd]. reflexivity. }
    destruct Hp as (w2 & Xp & Hd2).
    destruct (IH (S k) txt _ _ w2 counters w' ltac:(simpl in Hk; lia) Hd2)
      as (evs' & X' & B').
    exists (EvBatch k total (List.length b) :: work ++ pause_before rest ++ evs').
    split.
    + change (EvBatch k total (List.length b) :: work ++ pause_before rest ++ evs')
        with ([EvBatch k total (List.length b)]
              ++ (work ++ pause_before rest ++ evs')).
      eapply (extends_trans w (emit (EvBatch k total (List.length b)) w));
        [reflexivity|].
      eapply extends_trans; [exact Xw|].
      eapply extends_trans; eassumption.
    + simpl. exists work, evs'. repeat split; assumption.
Qed.

(** C5. The recipients are cut into contiguous batches in their order:
    the batches put end to end give the recipients back, every batch has 50
    members except that the last may have fewer (120 recipients give
    batches of 50, 50 and 20).  The batches are handled one after the
    other, and the cooldown of half a second follows every batch but the
    last. *)
Theorem C5_batches_partition_and_run_in_order (users : list Z) :
  let batches := make_batches users batch_size in
  concat batches = users
  /\ full_except_last 50 batches
  /\ (List.length users = 120%nat ->
      map (@List.length Z) batches = [50; 50; 20]%nat)
  /\ batch_delay = (1 # 2)%Q
  /\ (forall txt w counters w',
        dispatch (List.length batches) 1 batches txt 0 0 w
        = (Ok tt, counters, w') ->
        exists evs,
          extends w w' evs
          /\ batch_by_batch (List.length batches) 1 batches evs).
Proof.
  intros batches.
  destruct (make_batches_partition batch_size users ltac:(unfold batch_size; lia))
    as [Hc Hf].
  split; [exact Hc|]. split; [exact Hf|]. split; [|split; [reflexivity|]].
  - intros L. unfold batches. rewrite make_batches_lengths, L. reflexivity.
  - intros txt w counters w' Hd.
    apply (dispatch_order _ batches 1 txt 0 0 w counters w'); [lia|exact Hd].
Qed.

End Order.

(** ** The statements on concrete runs *)

(** A world in which the transport answers by [script] and no sleep is
    interrupted. *)
Definition world_with_sends (users : list Z) (script : nat -> option exn)
  : World :=
  {| send_script := script;
     sleep_script := fun _ => None;
     clock := fun i => inject_Z (Z.of_nat i);
     active_users := users;
     random_phrase := Some (u "hi");
     sends := 0; sleeps := 0; ticks := 0; trace := [] |}.

Definition answer_first (e : exn) (k : nat) : option exn :=
  match k with
  | O => Some e
  | S _ => None
  end.

Lemma C4_witness :
  let throttled := world_with_sends [2] (answer_first (RetryAfter 90 [])) in
  let refused := world_with_sends [2] (answer_first (Forbidden [])) in
  let broken := world_with_sends [2] (answer_first (TelegramError (u "Bot was BLOCKED"))) in
  (fst (_send_to_user (H := plain_unicode) 2 (u "hi") throttled) = Ok true
   /\ trace (snd (_send_to_user (H := plain_unicode) 2 (u "hi") throttled))
      = [EvSend 2 (u "hi"); EvSleep (inject_Z 60); EvSend 2 (u "hi");
         EvLog 2 0 "sent" None])
  /\ (fst (_send_to_user (H := plain_unicode) 2 (u "hi") refused) = Ok false
      /\ trace (snd (_send_to_user (H := plain_unicode) 2 (u "hi") refused))
         = [EvSend 2 (u "hi"); EvInactive 2])
  /\ (fst (_send_to_user (H := plain_unicode) 2 (u "hi") broken) = Ok false
      /\ sends (snd (_send_to_user (H := plain_unicode) 2 (u "hi") broken))
         = 1%nat).
Proof.
  intros throttled refused broken.
  split; [|split].
  - destruct (C4_delivery_retry_policy (H := plain_unicode) 2 (u "hi") throttled)
      as (Hretry & _ & _).
    destruct (Hretry 90 [] eq_refl eq_refl) as (Hok & _ & _).
    exact (Hok eq_refl).
  - destruct (C4_delivery_retry_policy (H := plain_unicode) 2 (u "hi") refused)
      as (_ & Hforbidden & _).
    destruct (Hforbidden [] eq_refl) as (Hr & Ht & _).
    split; [exact Hr|exact Ht].
  - destruct (C4_delivery_retry_policy (H := plain_unicode) 2 (u "hi") broken)
      as (_ & _ & Hother).
    destruct (Hother (TelegramError (u "Bot was BLOCKED")) eq_refl eq_refl)
      as (Hr & _ & _ & Hs).
    split; [exact Hr|exact Hs].
Defined.

Lemma C5_witness :
  let users := map Z.of_nat (seq 1 120) in
  let batches := make_batches users batch_size in
  let w := world_with_sends users (fun _ => None) in
  map (@List.length Z) batches = [50; 50; 20]%nat
  /\ exists evs,
       extends w (snd (dispatch (H := plain_unicode) 3 1 batches (u "hi") 0 0 w)) evs
       /\ batch_by_batch 3 1 batches evs.
Proof.
  intros users batches w.
  destruct (C5_batches_partition_and_run_in_order (H := plain_unicode) users)
    as (_ & _ & Hlen & _ & Hrun).
  split; [apply Hlen; reflexivity|].
  apply (Hrun (u "hi") w
              (snd (fst (dispatch (H := plain_unicode) 3 1 batches (u "hi") 0 0 w)))).
  vm_compute. reflexivity.
Defined.

(** The scenario of the specification: recipients 1, 2 and 3; the send to 2
    is answered by the rate-limit signal and succeeds at the second
    attempt; the send to 3 is answered by the blocked-the-bot signal. *)
Example scenario_three_recipients :
  let script k :=
    match k with
    | 1%nat => Some (RetryAfter 1 [])
    | 3%nat => Some (Forbidden [])
    | _ => None
    end in
  let out := _send_batch (H := plain_unicode) [1; 2; 3] (u "hi")
                         (world_with_sends [1; 2; 3] script) in
  fst out = Ok (2, 1)%nat
  /\ In (EvInactive 3) (trace (snd out))
  /\ sends (snd out) = 4%nat.
Proof.
  vm_compute. repeat split; try reflexivity. tauto.
Qed.

(** * Further properties of [security.py] *)

(** ** Blocking and unblocking *)

(** X1. Membership after [block_user] and [unblock_user]: the subject
    itself becomes blocked (or unblocked), every other subject keeps its
    status, and the action histories are not touched. *)
Theorem block_unblock_membership (sm : SecurityManager) (user_id v : Z) :
  is_user_blocked (block_user sm user_id) v
  = (bool_decide (v = user_id) || is_user_blocked sm v)
  /\ is_user_blocked (unblock_user sm user_id) v
     = (negb (bool_decide (v = user_id)) && is_user_blocked sm v)
  /\ user_actions (block_user sm user_id) = user_actions sm
  /\ user_actions (unblock_user sm user_id) = user_actions sm.
Proof.
  unfold is_user_blocked, block_user, unblock_user. simpl.
  split; [|split; [|split; reflexivity]].
  - destruct (decide (v = user_id)) as [->|Hne].
    + rewrite (bool_decide_eq_true_2 (user_id = user_id)) by reflexivity.
      simpl. apply bool_decide_eq_true. set_solver.
    + rewrite (bool_decide_eq_false_2 (v = user_id)) by assumption. simpl.
      apply bool_decide_ext. set_solver.
  - destruct (decide (v = user_id)) as [->|Hne].
    + rewrite (bool_decide_eq_true_2 (user_id = user_id)) by reflexivity.
      simpl. apply bool_decide_eq_false. set_solver.
    + rewrite (bool_decide_eq_false_2 (v = user_id)) by assumption. simpl.
      apply bool_decide_ext. set_solver.
Qed.

Lemma manager_eq (a b : SecurityManager) :
  user_actions a = user_actions b -> blocked_users a = blocked_users b -> a = b.
Proof. destruct a, b. simpl. intros -> ->. reflexivity. Qed.

(** X2. [unblock_user] undoes [block_user] for a subject that was not
    blocked, blocking twice is blocking once, and unblocking a subject that
    is not blocked changes nothing ([discard] does not raise). *)
Theorem block_unblock_round_trip (sm : SecurityManager) (user_id : Z) :
  is_user_blocked sm user_id = false ->
  unblock_user (block_user sm user_id) user_id = sm
  /\ block_user (block_user sm user_id) user_id = block_user sm user_id
  /\ unblock_user sm user_id = sm.
Proof.
  unfold is_user_blocked. intros Hb. apply bool_decide_eq_false in Hb.
  repeat split; apply manager_eq; try reflexivity;
    unfold block_user, unblock_user; simpl; set_solver.
Qed.

Lemma block_unblock_round_trip_witness :
  let sm := {| user_actions := ∅; blocked_users := {[ 4 ]} |} in
  unblock_user (block_user sm 7) 7 = sm.
Proof.
  intros sm.
  apply (proj1 (block_unblock_round_trip sm 7 ltac:(vm_compute; reflexivity))).
Defined.

(** ** The statistics and the side effect of a check *)

(** The dictionary of [get_security_stats]. *)
Record security_stats := {
  stat_blocked_users : nat;
  stat_active_users_tracked : nat;
  stat_rate_limits : RateLimits;
  stat_suspicious_patterns_count : nat
}.

Definition get_security_stats `{Unicode} (sm : SecurityManager)
  : security_stats :=
  {| stat_blocked_users := size (blocked_users sm);
     stat_active_users_tracked := size (user_actions sm);
     stat_rate_limits := rate_limits;
     stat_suspicious_patterns_count := List.length suspicious_patterns |}.

(** X3. [check_rate_limit] never changes a history or the blocked set, and
    an action type without a limit is always admitted.  Its one side
    effect is on a subject that was never seen: the [defaultdict] gains an
    empty entry, so the number of tracked users reported by
    [get_security_stats] grows by one although nothing was recorded.  For
    a subject that has an entry the manager is returned as it was. *)
Theorem check_rate_limit_side_effect `{Unicode} (sm : SecurityManager)
    (user_id : Z) (kind : action_type) (now : Z) :
  let sm' := snd (check_rate_limit sm user_id kind now) in
  (forall v, history sm' v = history sm v)
  /\ blocked_users sm' = blocked_users sm
  /\ (forall name, kind = other_action name ->
        fst (check_rate_limit sm user_id kind now) = true)
  /\ (user_actions sm !! user_id = None ->
        stat_active_users_tracked (get_security_stats sm')
        = S (stat_active_users_tracked (get_security_stats sm)))
  /\ (is_Some (user_actions sm !! user_id) -> sm' = sm).
Proof.
  intros sm'. split; [|split; [|split; [|split]]].
  - intros v. apply check_rate_limit_history.
  - apply check_rate_limit_blocked.
  - intros name ->. unfold check_rate_limit.
    destruct (getitem (user_actions sm) user_id). reflexivity.
  - intros Hn. unfold sm', check_rate_limit, getitem. rewrite Hn.
    unfold get_security_stats.
    destruct kind; simpl;
      repeat match goal with |- context [if ?b then _ else _] => destruct b end;
      simpl; apply map_size_insert_None; exact Hn.
  - intros [l Hl]. unfold sm', check_rate_limit, getitem. rewrite Hl.
    destruct kind; simpl;
      repeat match goal with |- context [if ?b then _ else _] => destruct b end;
      simpl; apply manager_eq; reflexivity.
Qed.

Lemma check_rate_limit_side_effect_witness :
  let sm := {| user_actions := ∅; blocked_users := ∅ |} in
  stat_active_users_tracked
    (get_security_stats (H := plain_unicode)
       (snd (check_rate_limit sm 7 command 0)))
  = 1%nat.
Proof.
  intros sm.
  apply (proj1 (proj2 (proj2 (proj2
           (check_rate_limit_side_effect (H := plain_unicode) sm 7 command 0))))).
  reflexivity.
Defined.

(** ** The action history *)

Lemma log_user_action_other (sm : SecurityManager) (user_id v : Z)
    (kind : action_type) (content : text) (t_action t_prune : Z) :
  v <> user_id ->
  history (log_user_action sm user_id kind content t_action t_prune) v
  = history sm v.
Proof.
  intros Hne. rewrite !history_lookup. unfold log_user_action.
  pose proof (getitem_lookup (user_actions sm) user_id v) as G.
  destruct (getitem (user_actions sm) user_id) as [acts m]. simpl in G.
  unfold getitem at 1. rewrite lookup_insert_eq. simpl.
  rewrite !lookup_insert_ne by congruence. exact G.
Qed.

(** X4. After [log_user_action] every entry of the subject's history is
    younger than seven days at the reading of the clock used for the
    pruning, and is either an entry that was there or the new record; the
    new record carries at most 100 characters of the content; the
    histories of the other subjects and the blocked set are unchanged. *)
Theorem log_user_action_retention (sm : SecurityManager) (user_id : Z)
    (kind : action_type) (content : text) (t_action t_prune : Z) :
  let sm' := log_user_action sm user_id kind content t_action t_prune in
  let new := {| a_type := kind; a_time := t_action;
                a_content := firstn 100 content |} in
  (forall a, In a (history sm' user_id) ->
     t_prune - days 7 < a_time a /\ (In a (history sm user_id) \/ a = new))
  /\ (List.length (a_content new) <= 100)%nat
  /\ (forall v, v <> user_id -> history sm' v = history sm v)
  /\ blocked_users sm' = blocked_users sm.
Proof.
  intros sm' new. split; [|split; [|split]].
  - intros a Ha. unfold sm' in Ha. rewrite log_user_action_history in Ha.
    apply List.filter_In in Ha. destruct Ha as [Hin Ht].
    split; [apply Z.ltb_lt; exact Ht|].
    apply List.in_app_or in Hin. destruct Hin as [Hin|[Hin|[]]].
    + left. exact Hin.
    + right. symmetry. exact Hin.
  - simpl. rewrite length_take. lia.
  - intros v Hv. apply log_user_action_other. exact Hv.
  - apply log_user_action_blocked.
Qed.

(** Entries in the order of their times. *)
Definition time_ordered (h : list action) : Prop :=
  StronglySorted (fun a b => a_time a <= a_time b) h.

Lemma time_ordered_filter (f : action -> bool) (h : list action) :
  time_ordered h -> time_ordered (List.filter f h).
Proof.
  unfold time_ordered. induction 1 as [|a h Hs IH Ha]; simpl; [constructor|].
  destruct (f a); [|exact IH]. constructor; [exact IH|].
  apply List.Forall_forall. intros b Hb. apply List.filter_In in Hb.
  destruct Hb as [Hb _]. rewrite List.Forall_forall in Ha. apply Ha. exact Hb.
Qed.

Lemma time_ordered_snoc (h : list action) (a : action) :
  time_ordered h -> (forall b, In b h -> a_time b <= a_time a) ->
  time_ordered (h ++ [a]).
Proof.
  unfold time_ordered. induction 1 as [|x h Hs IH Hx]; intros Hle; simpl.
  - repeat constructor.
  - constructor.
    + apply IH. intros b Hb. apply Hle. right. exact Hb.
    + apply Forall_app. split; [exact Hx|].
      repeat constructor. apply Hle. left. reflexivity.
Qed.

(** X5. [log_user_action] keeps a history in the order of time: when the
    entries are ordered and none is later than the new record, the history
    after the call is ordered too. *)
Theorem log_user_action_keeps_time_order (sm : SecurityManager) (user_id : Z)
    (kind : action_type) (content : text) (t_action t_prune : Z) :
  time_ordered (history sm user_id) ->
  (forall b, In b (history sm user_id) -> a_time b <= t_action) ->
  time_ordered
    (history (log_user_action sm user_id kind content t_action t_prune) user_id).
Proof.
  intros Hs Hle. rewrite log_user_action_history.
  apply time_ordered_filter. apply time_ordered_snoc; assumption.
Qed.

Lemma log_user_action_keeps_time_order_witness :
  let old := {| a_type := message; a_time := 5; a_content := [] |} in
  let sm := {| user_actions := {[ 7 := [old] ]}; blocked_users := ∅ |} in
  time_ordered (history (log_user_action sm 7 phrase (u "hi") 9 10) 7).
Proof.
  intros old sm. apply log_user_action_keeps_time_order.
  - vm_compute. repeat constructor.
  - vm_compute. intros b [<-|[]]. discriminate.
Defined.

(** ** The gate and the histories *)

Section GateHistory.
Context `{Unicode}.

(** The history after a call that passed the block test and the limiter. *)
Lemma gate_admitted_history (sm : SecurityManager) (user_id : Z) (txt : text)
    (t_check t_action t_prune : Z) :
  is_user_blocked sm user_id = false ->
  fst (check_rate_limit sm user_id phrase t_check) = true ->
  history (snd (auto_moderate_phrase sm user_id txt t_check t_action t_prune))
          user_id
  = List.filter (fun a => t_prune - days 7 <? a_time a)
      (history sm user_id
       ++ [{| a_type := phrase; a_time := t_action;
              a_content := firstn 100 txt |}]).
Proof.
  intros Hb Hr. unfold auto_moderate_phrase. rewrite Hb.
  pose proof (check_rate_limit_history sm user_id phrase t_check user_id) as Hh.
  destruct (check_rate_limit sm user_id phrase t_check) as [ok sm1].
  simpl in Hr, Hh. subst ok. simpl.
  rewrite log_user_action_history, Hh. reflexivity.
Qed.

Lemma gate_rejected_history (sm : SecurityManager) (user_id : Z) (txt : text)
    (t_check t_action t_prune : Z) :
  is_user_blocked sm user_id = true
  \/ fst (check_rate_limit sm user_id phrase t_check) = false ->
  history (snd (auto_moderate_phrase sm user_id txt t_check t_action t_prune))
          user_id
  = history sm user_id.
Proof.
  intros Hc. unfold auto_moderate_phrase.
  destruct (is_user_blocked sm user_id); [reflexivity|].
  destruct Hc as [Hc|Hc]; [discriminate|].
  pose proof (check_rate_limit_history sm user_id phrase t_check user_id) as Hh.
  destruct (check_rate_limit sm user_id phrase t_check) as [ok sm1].
  simpl in Hc, Hh. subst ok. simpl. exact Hh.
Qed.

Lemma gate_other_history (sm : SecurityManager) (user_id v : Z)
    (txt : text) (t_check t_action t_prune : Z) :
  v <> user_id ->
  history (snd (auto_moderate_phrase sm user_id txt t_check t_action t_prune)) v
  = history sm v.
Proof.
  intros Hne. unfold auto_moderate_phrase.
  destruct (is_user_blocked sm user_id); [reflexivity|].
  pose proof (check_rate_limit_history sm user_id phrase t_check v) as Hh.
  destruct (check_rate_limit sm user_id phrase t_check) as [ok sm1].
  simpl in Hh. destruct ok; simpl; [|exact Hh].
  rewrite log_user_action_other by exact Hne. exact Hh.
Qed.


(** X6. A call of the gate for one subject never changes the history of
    another subject. *)
Theorem gate_leaves_other_histories (sm : SecurityManager) (user_id v : Z)
    (txt : text) (t_check t_action t_prune : Z) :
  v <> user_id ->
  history (snd (auto_moderate_phrase sm user_id txt t_check t_action t_prune)) v
  = history sm v.
Proof. apply gate_other_history. Qed.

End GateHistory.

Lemma gate_leaves_other_histories_witness :
  let old := {| a_type := phrase; a_time := 5; a_content := [] |} in
  let sm := {| user_actions := {[ 9 := [old] ]}; blocked_users := ∅ |} in
  history
    (snd (auto_moderate_phrase (H := plain_unicode) sm 7 (u "hi") 100 101 102)) 9
  = [old].
Proof.
  intros old sm.
  rewrite (gate_leaves_other_histories (H := plain_unicode)) by discriminate.
  reflexivity.
Defined.

(** ** What the limiter guarantees *)

(** The security checks that open [text_message_handler]
    ([bot_handlers_optimized.py]): a blocked subject is ignored, a subject
    over its message limit is told so, and otherwise the message is
    recorded and the handler goes on. *)
Inductive message_outcome :=
| ignored_blocked
| throttled
| proceeded.

Definition text_message_handler_checks (sm : SecurityManager) (user_id : Z)
    (message_text : text) (t_check t_action t_prune : Z)
  : message_outcome * SecurityManager :=
  if is_user_blocked sm user_id then (ignored_blocked, sm)
  else
    let '(ok, sm1) := check_rate_limit sm user_id message t_check in
    if negb ok then (throttled, sm1)
    else
      (proceeded,
       log_user_action sm1 user_id message message_text t_action t_prune).

(** The record [a] is of [kind] and its time lies in the span of one window
    that ends at [tau]. *)
Definition in_span (kind : action_type) (tau : Z) (a : action) : bool :=
  action_type_eqb (a_type a) kind
  && (tau - window kind <? a_time a) && (a_time a <=? tau).

Definition span_count (kind : action_type) (tau : Z) (h : list action) : nat :=
  List.length (List.filter (in_span kind tau) h).

(** In no span of one window does the history hold more records of a
    limited kind than the threshold of the kind. *)
Definition within_limits (h : list action) : Prop :=
  forall kind tau, In kind limited_kinds ->
    (span_count kind tau h <= threshold kind)%nat.

Lemma filter_length_le {A} (f g : A -> bool) (l : list A) :
  (forall a, f a = true -> g a = true) ->
  (List.length (List.filter f l) <= List.length (List.filter g l))%nat.
Proof.
  intros Hfg. induction l as [|a l IH]; [reflexivity|]. simpl.
  destruct (f a) eqn:Ef.
  - rewrite (Hfg a Ef). simpl. lia.
  - destruct (g a); simpl; lia.
Qed.

Lemma filter_filter_length_le {A} (f g : A -> bool) (l : list A) :
  (List.length (List.filter f (List.filter g l))
   <= List.length (List.filter f l))%nat.
Proof.
  induction l as [|a l IH]; [reflexivity|]. simpl.
  destruct (g a); simpl; destruct (f a); simpl; lia.
Qed.

Lemma action_type_eqb_eq (a b : action_type) :
  action_type_eqb a b = true -> a = b.
Proof.
  destruct a, b; simpl; try discriminate; try reflexivity.
  intros E. apply bool_decide_eq_true in E. congruence.
Qed.

(** One admitted and recorded action keeps the histories within the
    limits. *)
Lemma record_within_limits (sm : SecurityManager) (user_id : Z)
    (kind : action_type) (content : text) (t_check t_action t_prune : Z) :
  In kind limited_kinds ->
  within_limits (history sm user_id) ->
  fst (check_rate_limit sm user_id kind t_check) = true ->
  t_check <= t_action ->
  within_limits
    (history
       (log_user_action (snd (check_rate_limit sm user_id kind t_check))
                        user_id kind content t_action t_prune)
       user_id).
Proof.
  intros Hk Hw Hadm Ht kind' tau Hk'.
  rewrite log_user_action_history, check_rate_limit_history.
  unfold span_count.
  eapply Nat.le_trans; [apply filter_filter_length_le|].
  rewrite List.filter_app, List.length_app. simpl List.filter.
  destruct (in_span kind' tau _) eqn:Enew; simpl List.length.
  - unfold in_span in Enew. simpl in Enew.
    apply andb_true_iff in Enew. destruct Enew as [Enew Hhi].
    apply andb_true_iff in Enew. destruct Enew as [Ety Hlo].
    apply action_type_eqb_eq in Ety. subst kind'.
    apply Z.ltb_lt in Hlo. apply Z.leb_le in Hhi.
    rewrite check_rate_limit_decision in Hadm by exact Hk.
    apply negb_true_iff, Nat.leb_gt in Hadm.
    assert (Hle : (List.length (List.filter (in_span kind tau) (history sm user_id))
                   <= events_in_window kind t_check (history sm user_id))%nat).
    { unfold events_in_window. apply filter_length_le. intros a Ha.
      unfold in_span in Ha.
      apply andb_true_iff in Ha. destruct Ha as [Ha _].
      apply andb_true_iff in Ha. destruct Ha as [Hty Hlo'].
      rewrite Hty. simpl. apply Z.ltb_lt in Hlo'. apply Z.ltb_lt.
      unfold age. lia. }
    lia.
  - rewrite Nat.add_0_r. apply (Hw kind' tau Hk').
Qed.

Section Limits.
Context `{Unicode}.

(** What reaches the security manager: a text message, or a phrase handed
    to the gate, each with the readings of the clock made for it. *)
Inductive inbound :=
| Message (user_id : Z) (txt : text) (t_check t_action t_prune : Z)
| Submission (user_id : Z) (txt : text) (t_check t_action t_prune : Z).

Definition check_before_record (i : inbound) : Prop :=
  match i with
  | Message _ _ t_check t_action _ => t_check <= t_action
  | Submission _ _ t_check t_action _ => t_check <= t_action
  end.

Definition receive (sm : SecurityManager) (i : inbound) : SecurityManager :=
  match i with
  | Message user_id txt t_check t_action t_prune =>
    snd (text_message_handler_checks sm user_id txt t_check t_action t_prune)
  | Submission user_id txt t_check t_action t_prune =>
    snd (auto_moderate_phrase sm user_id txt t_check t_action t_prune)
  end.

Lemma receive_within_limits (sm : SecurityManager) (i : inbound) :
  check_before_record i ->
  (forall v, within_limits (history sm v)) ->
  forall v, within_limits (history (receive sm i) v).
Proof.
  intros Hi Hw v.
  destruct i as [user_id txt t_check t_action t_prune
                |user_id txt t_check t_action t_prune]; simpl in Hi |- *.
  - unfold text_message_handler_checks.
    destruct (is_user_blocked sm user_id); [apply Hw|].
    pose proof (record_within_limits sm user_id message txt t_check t_action
                  t_prune ltac:(simpl; tauto) (Hw user_id)) as Hrec.
    pose proof (check_rate_limit_history sm user_id message t_check) as Hh.
    destruct (check_rate_limit sm user_id message t_check) as [ok sm1].
    simpl in Hrec, Hh. destruct ok; simpl.
    + destruct (decide (v = user_id)) as [->|Hne].
      * apply Hrec; [reflexivity|exact Hi].
      * rewrite log_user_action_other, Hh by exact Hne. apply Hw.
    + rewrite Hh. apply Hw.
  - destruct (decide (v = user_id)) as [->|Hne].
    + destruct (is_user_blocked sm user_id) eqn:Hb.
      { rewrite gate_rejected_history by (left; exact Hb). apply Hw. }
      destruct (fst (check_rate_limit sm user_id phrase t_check)) eqn:Hr.
      * rewrite gate_admitted_history by assumption.
        pose proof (record_within_limits sm user_id phrase txt t_check t_action
                      t_prune ltac:(simpl; tauto) (Hw user_id) Hr Hi) as Hrec.
        rewrite log_user_action_history, check_rate_limit_history in Hrec.
        exact Hrec.
      * rewrite gate_rejected_history by (right; exact Hr). apply Hw.
    + rewrite gate_other_history by exact Hne. apply Hw.
Qed.

(** X7. The guarantee of the limiter.  Start from a manager whose
    histories are within the limits (an empty one is) and let any
    sequence of text messages and phrase submissions arrive, for any
    subjects and in any order, each handled with a check that is not later
    than its record.  Then in every history no span of one hour holds
    more than 10 recorded messages and no span of 24 hours more than 3
    recorded submissions. *)
Theorem limiter_bounds_every_window (sm : SecurityManager)
    (arrivals : list inbound) :
  (forall v, within_limits (history sm v)) ->
  Forall check_before_record arrivals ->
  forall v tau,
    (span_count message tau (history (fold_left receive arrivals sm) v) <= 10)%nat
    /\ (span_count phrase tau (history (fold_left receive arrivals sm) v) <= 3)%nat.
Proof.
  intros Hw Ha.
  assert (Hall : forall v, within_limits (history (fold_left receive arrivals sm) v)).
  { revert sm Hw. induction Ha as [|i arrivals Hi Ha IH]; intros sm Hw.
    - exact Hw.
    - simpl. apply IH. apply receive_within_limits; assumption. }
  intros v tau. split.
  - apply (Hall v message tau). simpl. tauto.
  - apply (Hall v phrase tau). simpl. tauto.
Qed.

End Limits.

Lemma limiter_bounds_every_window_witness :
  let sm := {| user_actions := ∅; blocked_users := ∅ |} in
  let arrivals :=
    [Submission 7 (u "a") 10 10 10; Submission 7 (u "b") 20 20 20;
     Submission 7 (u "c") 30 30 30; Submission 7 (u "d") 40 40 40] in
  (span_count phrase 40
     (history (fold_left (receive (H := plain_unicode)) arrivals sm) 7) <= 3)%nat
  /\ List.length (history (fold_left (receive (H := plain_unicode)) arrivals sm) 7)
     = 3%nat.
Proof.
  intros sm arrivals. split; [|vm_compute; reflexivity].
  apply (limiter_bounds_every_window (H := plain_unicode) sm arrivals).
  - intros v kind tau _. rewrite history_lookup.
    simpl. rewrite lookup_empty. simpl. unfold span_count. simpl. lia.
  - repeat constructor; simpl; lia.
Defined.

(** ** After an automatic block *)

Section Sticky.
Context `{Unicode}.

Lemma moderate_and_block_blocks (sm : SecurityManager) (user_id : Z)
    (txt : text) (t_check t_action t_prune : Z) :
  is_user_blocked sm user_id = false ->
  fst (check_rate_limit sm user_id phrase t_check) = true ->
  (3 <= severity txt)%nat ->
  is_user_blocked
    (snd (moderate_and_block sm user_id txt t_check t_action t_prune)) user_id
  = true.
Proof.
  intros Hb Hr Hs.
  pose proof (gate_result sm user_id txt t_check t_action t_prune) as E.
  rewrite Hb, Hr in E. unfold AbuseGate_evaluate in E. simpl negb in E.
  cbv iota in E.
  replace (3 <=? severity txt)%nat with true in E
    by (symmetry; apply Nat.leb_le; exact Hs).
  unfold moderate_and_block.
  destruct (auto_moderate_phrase sm user_id txt t_check t_action t_prune)
    as [r sm1].
  simpl in E. subst r. simpl.
  unfold is_user_blocked, block_user. simpl.
  apply bool_decide_eq_true. set_solver.
Qed.

(** X8. Once the caller has blocked a subject on the gate's advice, the
    block holds: every later submission of the subject is refused with the
    reason blocked whatever its text, every later message is ignored, and
    neither leaves any trace in the manager; [unblock_user] ends it. *)
Theorem auto_block_is_sticky (sm : SecurityManager) (user_id : Z)
    (txt : text) (t_check t_action t_prune : Z) :
  is_user_blocked sm user_id = false ->
  fst (check_rate_limit sm user_id phrase t_check) = true ->
  (3 <= severity txt)%nat ->
  let sm1 := snd (moderate_and_block sm user_id txt t_check t_action t_prune) in
  (forall txt' t1 t2 t3,
     auto_moderate_phrase sm1 user_id txt' t1 t2 t3
     = ({| allowed := false; reason := reason_blocked; suspicion_level := 0;
           auto_block := false |}, sm1))
  /\ (forall txt' t1 t2 t3,
        text_message_handler_checks sm1 user_id txt' t1 t2 t3
        = (ignored_blocked, sm1))
  /\ is_user_blocked (unblock_user sm1 user_id) user_id = false.
Proof.
  intros Hb Hr Hs sm1.
  pose proof (moderate_and_block_blocks sm user_id txt t_check t_action t_prune
                Hb Hr Hs) as Hblocked.
  fold sm1 in Hblocked.
  split; [|split].
  - intros txt' t1 t2 t3. unfold auto_moderate_phrase. rewrite Hblocked.
    reflexivity.
  - intros txt' t1 t2 t3. unfold text_message_handler_checks.
    rewrite Hblocked. reflexivity.
  - unfold is_user_blocked, unblock_user. simpl.
    apply bool_decide_eq_false. set_solver.
Qed.

(** X9. What [text_message_handler] records.  A message of a blocked
    subject or of a subject over its limit of messages leaves the
    histories as they were; a message that proceeds is appended once, as a
    record of type message, to the history of its sender (from which the
    entries older than seven days are dropped). *)
Theorem message_recorded_only_when_it_proceeds (sm : SecurityManager)
    (user_id : Z) (txt : text) (t_check t_action t_prune : Z) :
  let out := text_message_handler_checks sm user_id txt t_check t_action t_prune in
  (fst out <> proceeded -> forall v, history (snd out) v = history sm v)
  /\ (fst out = proceeded ->
        is_user_blocked sm user_id = false
        /\ fst (check_rate_limit sm user_id message t_check) = true
        /\ history (snd out) user_id
           = List.filter (fun a => t_prune - days 7 <? a_time a)
               (history sm user_id
                ++ [{| a_type := message; a_time := t_action;
                       a_content := firstn 100 txt |}]))
  /\ blocked_users (snd out) = blocked_users sm.
Proof.
  unfold text_message_handler_checks.
  destruct (is_user_blocked sm user_id).
  { simpl. split; [reflexivity|]. split; [discriminate|reflexivity]. }
  pose proof (check_rate_limit_history sm user_id message t_check) as Hh.
  pose proof (check_rate_limit_blocked sm user_id message t_check) as Hbl.
  destruct (check_rate_limit sm user_id message t_check) as [ok sm1].
  simpl in Hh, Hbl. destruct ok; simpl.
  - split; [congruence|]. split.
    + intros _. split; [reflexivity|]. split; [reflexivity|].
      rewrite log_user_action_history, Hh. reflexivity.
    + rewrite log_user_action_blocked. exact Hbl.
  - split; [intros _; exact Hh|]. split; [discriminate|exact Hbl].
Qed.

End Sticky.

Lemma auto_block_is_sticky_witness :
  let sm := {| user_actions := ∅; blocked_users := ∅ |} in
  let sm1 := snd (moderate_and_block (H := plain_unicode) sm 7
                                     (u "!!!???@bob") 100 101 102) in
  fst (auto_moderate_phrase (H := plain_unicode) sm1 7 (u "hello") 200 201 202)
  = {| allowed := false; reason := reason_blocked; suspicion_level := 0;
       auto_block := false |}.
Proof.
  intros sm sm1.
  destruct (auto_block_is_sticky (H := plain_unicode) sm 7 (u "!!!???@bob")
              100 101 102) as (Hgate & _ & _).
  - vm_compute. reflexivity.
  - vm_compute. reflexivity.
  - vm_compute. lia.
  - fold sm1 in Hgate. rewrite Hgate. reflexivity.
Defined.

Lemma message_recorded_only_when_it_proceeds_witness :
  let sm := {| user_actions := ∅; blocked_users := {[ 8 ]} |} in
  history (snd (text_message_handler_checks sm 8 (u "hi") 1 2 3)) 8 = []
  /\ List.length (history (snd (text_message_handler_checks sm 7 (u "hi") 1 2 3)) 7)
     = 1%nat.
Proof.
  intros sm. split.
  - rewrite (proj1 (message_recorded_only_when_it_proceeds sm 8 (u "hi") 1 2 3)).
    + reflexivity.
    + vm_compute. discriminate.
  - destruct (proj1 (proj2 (message_recorded_only_when_it_proceeds sm 7 (u "hi") 1 2 3)))
      as (_ & _ & Hh).
    + vm_compute. reflexivity.
    + rewrite Hh. vm_compute. reflexivity.
Defined.

(** ** The score of a text *)

(** The code points whose lower case and word class the model spells
    out: Basic Latin and the Cyrillic letters U+0400..U+045F. *)
Definition modelled (c : Z) : bool := (c <? 128) || in_range 1024 1119 c.

Definition modelled_text (s : text) : Prop :=
  Forall (fun c => modelled c = true) s.

Lemma match_here_app (s b : text) :
  forall r, match_here r s = true -> match_here r (s ++ b) = true.
Proof.
  induction s as [|c s IH]; intros r Hm.
  - simpl in Hm. rewrite orb_false_r in Hm.
    destruct b; simpl; rewrite Hm; reflexivity.
  - simpl in Hm |- *. apply orb_true_iff in Hm. destruct Hm as [Hn|Hm].
    + rewrite Hn. reflexivity.
    + rewrite (IH _ Hm). apply orb_true_r.
Qed.

Lemma re_search_app_r (r : regex) (s b : text) :
  re_search r s = true -> re_search r (s ++ b) = true.
Proof.
  induction s as [|c s IH]; intros Hm.
  - simpl in Hm. rewrite orb_false_r in Hm.
    apply (match_here_app [] b) in Hm. simpl in Hm.
    destruct b; simpl in *; rewrite Hm; reflexivity.
  - cbn [re_search] in Hm. apply orb_true_iff in Hm.
    change ((c :: s) ++ b) with (c :: (s ++ b)). cbn [re_search].
    destruct Hm as [Hm|Hm].
    + apply (match_here_app (c :: s) b) in Hm.
      change ((c :: s) ++ b) with (c :: (s ++ b)) in Hm.
      rewrite Hm. reflexivity.
    + rewrite (IH Hm). apply orb_true_r.
Qed.

Lemma re_search_app_l (r : regex) (a s : text) :
  re_search r s = true -> re_search r (a ++ s) = true.
Proof.
  intros Hm. induction a as [|c a IH]; [exact Hm|].
  change ((c :: a) ++ s) with (c :: (a ++ s)). cbn [re_search].
  rewrite IH. apply orb_true_r.
Qed.

Lemma run_here_app (s b : text) :
  run_here s = true -> run_here (s ++ b) = true.
Proof.
  destruct s as [|c rest]; [discriminate|].
  change ((c :: rest) ++ b) with (c :: (rest ++ b)).
  unfold run_here. intros Hm.
  apply andb_true_iff in Hm. destruct Hm as [Hm Hall].
  apply andb_true_iff in Hm. destruct Hm as [Hnl Hlen].
  apply Nat.leb_le in Hlen.
  apply andb_true_iff. split; [apply andb_true_iff; split|].
  - exact Hnl.
  - apply Nat.leb_le. rewrite List.length_app. lia.
  - rewrite take_app_le by exact Hlen. exact Hall.
Qed.

Lemma repeated_run_app_r (s b : text) :
  repeated_run s = true -> repeated_run (s ++ b) = true.
Proof.
  induction s as [|c s IH]; intros Hm; [discriminate|].
  cbn [repeated_run] in Hm. apply orb_true_iff in Hm.
  change ((c :: s) ++ b) with (c :: (s ++ b)). cbn [repeated_run].
  destruct Hm as [Hm|Hm].
  - apply (run_here_app (c :: s) b) in Hm.
    change ((c :: s) ++ b) with (c :: (s ++ b)) in Hm.
    rewrite Hm. reflexivity.
  - rewrite (IH Hm). apply orb_true_r.
Qed.

Lemma repeated_run_app_l (a s : text) :
  repeated_run s = true -> repeated_run (a ++ s) = true.
Proof.
  intros Hm. induction a as [|c a IH]; [exact Hm|].
  change ((c :: a) ++ s) with (c :: (a ++ s)). cbn [repeated_run].
  rewrite IH. apply orb_true_r.
Qed.

Section Score.
Context `{Unicode}.

(** A pattern found in a text is found in every text that contains it. *)
Lemma search_embedded (p : pattern) (a s b : text) :
  search p s = true -> search p (a ++ s ++ b) = true.
Proof.
  destruct p as [|r]; simpl; intros Hm.
  - apply repeated_run_app_l, repeated_run_app_r, Hm.
  - apply re_search_app_l, re_search_app_r, Hm.
Qed.

(** Lower case of one modelled character, which needs no context. *)
Definition lower1 (c : Z) : text := lower_char [] c [].

Lemma lower_char_modelled (before : text) (c : Z) (after : text) :
  modelled c = true -> lower_char before c after = lower1 c.
Proof.
  unfold modelled, lower1, lower_char, in_range. intros Hm.
  repeat match goal with
         | |- context [if ?b then _ else _] => destruct b eqn:?
         end; try reflexivity.
  exfalso.
  repeat match goal with
         | E : (_ || _) = true |- _ => apply orb_true_iff in E
         | E : (_ && _) = true |- _ => apply andb_true_iff in E; destruct E
         | E : (_ && _) = false |- _ => apply andb_false_iff in E
         | E : (_ <=? _) = true |- _ => apply Z.leb_le in E
         | E : (_ <=? _) = false |- _ => apply Z.leb_gt in E
         | E : (_ <? _) = true |- _ => apply Z.ltb_lt in E
         | E : (_ <? _) = false |- _ => apply Z.ltb_ge in E
         end.
  repeat match goal with
         | E : _ \/ _ |- _ => destruct E
         | E : _ /\ _ |- _ => destruct E
         end; lia.
Qed.

Lemma lower_from_modelled (s : text) :
  modelled_text s -> forall before, lower_from before s = flat_map lower1 s.
Proof.
  induction 1 as [|c s Hc Hs IH]; intros before; [reflexivity|].
  simpl. rewrite (lower_char_modelled _ _ _ Hc), IH. reflexivity.
Qed.

Lemma py_lower_modelled (s : text) :
  modelled_text s -> py_lower s = flat_map lower1 s.
Proof. intros Hs. apply lower_from_modelled. exact Hs. Qed.

(** X10. Text added before or after a text of the modelled alphabets
    cannot lower its score: every pattern found in the text is found in
    the longer text, so the severity does not decrease. *)
Theorem score_monotone_in_surrounding_text (a s b : text) :
  modelled_text (a ++ s ++ b) ->
  (forall p, In p (check_suspicious_content s) ->
             In p (check_suspicious_content (a ++ s ++ b)))
  /\ (severity s <= severity (a ++ s ++ b))%nat.
Proof.
  intros Hm.
  assert (Hs : modelled_text s).
  { unfold modelled_text in *. apply Forall_app in Hm. destruct Hm as [_ Hm].
    apply Forall_app in Hm. tauto. }
  assert (Hl : py_lower (a ++ s ++ b)
               = flat_map lower1 a ++ py_lower s ++ flat_map lower1 b).
  { rewrite (py_lower_modelled _ Hm), (py_lower_modelled _ Hs).
    rewrite !List.flat_map_app. reflexivity. }
  unfold severity, check_suspicious_content. rewrite Hl. split.
  - intros p Hp. apply List.filter_In in Hp. destruct Hp as [Hin Hp].
    apply List.filter_In. split; [exact Hin|]. apply search_embedded, Hp.
  - apply filter_length_le. intros p Hp. apply search_embedded, Hp.
Qed.

Lemma lower1_fixed (c : Z) :
  modelled c = true ->
  exists c', lower1 c = [c'] /\ modelled c' = true /\ lower1 c' = [c'].
Proof.
  intros Hm.
  assert (Hc : c < 128 \/ 1024 <= c <= 1119).
  { unfold modelled, in_range in Hm. apply orb_true_iff in Hm.
    destruct Hm as [Hm|Hm]; [left; apply Z.ltb_lt; exact Hm|right].
    apply andb_true_iff in Hm. destruct Hm as [A B].
    apply Z.leb_le in A. apply Z.leb_le in B. lia. }
  clear Hm.
  assert (Hcases : 65 <= c <= 90 \/ c < 65 \/ 90 < c < 128
                   \/ 1040 <= c <= 1071 \/ 1024 <= c <= 1039
                   \/ 1072 <= c <= 1119) by lia.
  destruct Hcases as [Hr|[Hr|[Hr|[Hr|[Hr|Hr]]]]];
    [exists (c + 32)|exists c|exists c|exists (c + 32)|exists (c + 80)
     |exists c];
    unfold modelled, lower1, lower_char, in_range;
    repeat match goal with
           | |- context [?x <=? ?y] =>
             first
               [ replace (x <=? y) with true by (symmetry; apply Z.leb_le; lia)
               | replace (x <=? y) with false by (symmetry; apply Z.leb_gt; lia) ]
           | |- context [?x <? ?y] =>
             first
               [ replace (x <? y) with true by (symmetry; apply Z.ltb_lt; lia)
               | replace (x <? y) with false by (symmetry; apply Z.ltb_ge; lia) ]
           end;
    simpl; repeat split; reflexivity.
Qed.

Lemma py_lower_idempotent (s : text) :
  modelled_text s ->
  modelled_text (py_lower s) /\ py_lower (py_lower s) = py_lower s.
Proof.
  intros Hs. rewrite (py_lower_modelled s Hs).
  assert (G : modelled_text (flat_map lower1 s)
              /\ flat_map lower1 (flat_map lower1 s) = flat_map lower1 s).
  { induction Hs as [|c s Hc Hs IH]; [split; [constructor|reflexivity]|].
    destruct IH as [IH1 IH2].
    destruct (lower1_fixed c Hc) as (c' & E1 & E2 & E3).
    simpl. rewrite E1. simpl. rewrite E3. simpl. split.
    - constructor; assumption.
    - rewrite IH2. reflexivity. }
  destruct G as [G1 G2]. split; [exact G1|].
  rewrite (py_lower_modelled _ G1). exact G2.
Qed.

(** X11. The score does not depend on the case of the letters: for a text
    of the modelled alphabets, the patterns found in the text are those
    found in its lower-case form. *)
Theorem score_ignores_case (s : text) :
  modelled_text s ->
  check_suspicious_content (py_lower s) = check_suspicious_content s.
Proof.
  intros Hs. unfold check_suspicious_content.
  rewrite (proj2 (py_lower_idempotent s Hs)). reflexivity.
Qed.

End Score.

Lemma score_monotone_in_surrounding_text_witness :
  (severity (H := plain_unicode) (u "скидка")
   <= severity (H := plain_unicode) (u "Большая " ++ u "скидка" ++ u "!!!"))%nat.
Proof.
  apply (score_monotone_in_surrounding_text (H := plain_unicode)).
  vm_compute. repeat constructor.
Defined.

Lemma score_ignores_case_witness :
  check_suspicious_content (H := plain_unicode)
    (py_lower (H := plain_unicode) (u "СКИДКА @Bob"))
  = check_suspicious_content (H := plain_unicode) (u "СКИДКА @Bob").
Proof.
  apply (score_ignores_case (H := plain_unicode)).
  vm_compute. repeat constructor.
Defined.

(** * The file of blocked users *)

(** The part of the Unicode database and of [int] that the model of
    [load_blocked_users] does not spell out: the white space and the
    digits outside Basic Latin, and the value [int] gives (or the
    [ValueError] it raises, [None]) for a string of digits that has a
    digit outside Basic Latin or more than 4300 characters. *)
Class Numerals := {
  space_other : Z -> bool;
  digit_other : Z -> bool;
  int_exotic : text -> option Z
}.

Definition plain_numerals : Numerals :=
  {| space_other := fun _ => false; digit_other := fun _ => false;
     int_exotic := fun _ => None |}.

(** [str(n)], as [f"{user_id}"] formats an integer. *)
Fixpoint digits_from (fuel : nat) (n : Z) (acc : text) : text :=
  match fuel with
  | O => acc
  | S fuel' =>
    let acc' := (48 + n mod 10) :: acc in
    if n <? 10 then acc' else digits_from fuel' (n / 10) acc'
  end.

Definition digits (n : Z) : text :=
  digits_from (S (Z.to_nat (Z.log2 n))) n [].

Definition str_of_int (n : Z) : text :=
  if n <? 0 then 45 :: digits (- n) else digits n.

(** The lines [save_blocked_users] writes for the identifiers, in the
    order in which the set is iterated. *)
Definition written (ids : list Z) : text :=
  concat (map (fun user_id => str_of_int user_id ++ [10]) ids).

(** [save_blocked_users]: the content of the file afterwards (on a system
    whose line separator is the newline). *)
Definition save_blocked_users (sm : SecurityManager) : text :=
  written (elements (blocked_users sm)).

(** Reading a text file: [\r\n] and [\r] become [\n]. *)
Fixpoint universal_newlines (s : text) : text :=
  match s with
  | [] => []
  | c :: r =>
    if c =? 13 then
      match r with
      | d :: r' => if d =? 10 then 10 :: universal_newlines r'
                   else 10 :: universal_newlines r
      | [] => [10]
      end
    else c :: universal_newlines r
  end.

(** [for line in f]: the lines with their terminators. *)
Fixpoint lines_from (cur s : text) : list text :=
  match s with
  | [] => match cur with [] => [] | _ :: _ => [cur] end
  | c :: r =>
    if c =? 10 then (cur ++ [10]) :: lines_from [] r
    else lines_from (cur ++ [c]) r
  end.

Definition file_lines (content : text) : list text :=
  lines_from [] (universal_newlines content).

Section Loading.
Context `{Numerals}.

(** [c.isspace()] *)
Definition is_space (c : Z) : bool :=
  if c <? 128 then in_range 9 13 c || in_range 28 32 c
  else space_other c.

Fixpoint lstrip (s : text) : text :=
  match s with
  | [] => []
  | c :: r => if is_space c then lstrip r else s
  end.

(** [s.strip()] *)
Definition strip (s : text) : text := rev (lstrip (rev (lstrip s))).

Definition is_digit (c : Z) : bool :=
  if c <? 128 then in_range 48 57 c else digit_other c.

(** [s.isdigit()] *)
Definition isdigit (s : text) : bool :=
  match s with
  | [] => false
  | _ :: _ => forallb is_digit s
  end.

Definition decimal (s : text) : Z :=
  fold_left (fun acc c => acc * 10 + (c - 48)) s 0.

(** [int(s)] for a string that passed [isdigit]; [None] is a
    [ValueError]. *)
Definition py_int (s : text) : option Z :=
  if forallb (in_range 48 57) s && (List.length s <=? 4300)%nat
  then Some (decimal s)
  else int_exotic s.

(** The loop of [load_blocked_users].  A [ValueError] of [int] leaves the
    loop for the [except] clause: the lines that follow are not read. *)
Fixpoint load_lines (lines : list text) (blocked : gset Z) : gset Z :=
  match lines with
  | [] => blocked
  | line :: rest =>
    let user_id := strip line in
    if isdigit user_id then
      match py_int user_id with
      | Some n => load_lines rest ({[ n ]} ∪ blocked)
      | None => blocked
      end
    else load_lines rest blocked
  end.

(** [load_blocked_users]; [file] is the decoded content of the file, or
    [None] when there is no file. *)
Definition load_blocked_users (file : option text) (sm : SecurityManager)
  : SecurityManager :=
  match file with
  | None => sm
  | Some content =>
    {| user_actions := user_actions sm;
       blocked_users := load_lines (file_lines content) (blocked_users sm) |}
  end.

End Loading.

(** ** Saving and loading *)

Definition ascii_digit (c : Z) : Prop := 48 <= c <= 57.

Lemma decimal_snoc `{Numerals} (ds : text) (d : Z) :
  decimal (ds ++ [d]) = decimal ds * 10 + (d - 48).
Proof. unfold decimal. rewrite fold_left_app. reflexivity. Qed.

Lemma digits_from_S (fuel : nat) (n : Z) (acc : text) :
  digits_from (S fuel) n acc
  = if n <? 10 then (48 + n mod 10) :: acc
    else digits_from fuel (n / 10) ((48 + n mod 10) :: acc).
Proof. reflexivity. Qed.

Lemma digits_from_spec `{Numerals} (f : nat) :
  forall n acc,
    0 <= n < 2 ^ Z.of_nat (S f) ->
    exists ds,
      digits_from (S f) n acc = ds ++ acc
      /\ ds <> []
      /\ Forall ascii_digit ds
      /\ decimal ds = n
      /\ (List.length ds <= S f)%nat.
Proof.
  induction f as [|f IH]; intros n acc Hn.
  - assert (Hlt : n < 10) by (change (2 ^ Z.of_nat 1) with 2 in Hn; lia).
    simpl. replace (n <? 10) with true by (symmetry; apply Z.ltb_lt; lia).
    exists [48 + n mod 10]. rewrite Z.mod_small by lia.
    repeat split; try discriminate; try (simpl; lia).
    + repeat constructor; unfold ascii_digit; lia.
    + unfold decimal. simpl. lia.
  - rewrite digits_from_S. destruct (Z.ltb_spec n 10) as [Hlt|Hge].
    + exists [48 + n mod 10]. rewrite Z.mod_small by lia.
      repeat split; try discriminate; try (simpl; lia).
      * repeat constructor; unfold ascii_digit; lia.
      * unfold decimal. simpl. lia.
    + assert (Hq : 0 <= n / 10 < 2 ^ Z.of_nat (S f)).
      { split; [apply Z.div_pos; lia|].
        apply Z.div_lt_upper_bound; [lia|].
        replace (Z.of_nat (S (S f))) with (Z.succ (Z.of_nat (S f))) in Hn by lia.
        rewrite Z.pow_succ_r in Hn by lia. lia. }
      destruct (IH (n / 10) ((48 + n mod 10) :: acc) Hq)
        as (ds & E & Hne & Hd & Hv & Hl).
      exists (ds ++ [48 + n mod 10]).
      rewrite E, <- app_assoc. split; [reflexivity|].
      split; [destruct ds; discriminate|].
      split.
      { apply Forall_app. split; [exact Hd|]. constructor; [|constructor].
        unfold ascii_digit. pose proof (Z.mod_pos_bound n 10). lia. }
      split.
      { rewrite decimal_snoc, Hv.
        pose proof (Z.div_mod n 10). lia. }
      rewrite List.length_app. simpl. lia.
Qed.

Lemma digits_spec `{Numerals} (n : Z) :
  0 <= n ->
  digits n <> []
  /\ Forall ascii_digit (digits n)
  /\ decimal (digits n) = n
  /\ (List.length (digits n) <= S (Z.to_nat (Z.log2 n)))%nat.
Proof.
  intros Hn. unfold digits.
  assert (Hb : 0 <= n < 2 ^ Z.of_nat (S (Z.to_nat (Z.log2 n)))).
  { split; [exact Hn|].
    rewrite Nat2Z.inj_succ, Z2Nat.id by apply Z.log2_nonneg.
    destruct (Z.eq_dec n 0) as [->|Hnz]; [reflexivity|].
    apply Z.log2_spec. lia. }
  destruct (digits_from_spec _ n [] Hb) as (ds & E & Hne & Hd & Hv & Hl).
  rewrite E, app_nil_r. repeat split; assumption.
Qed.

Section RoundTrip.
Context `{Numerals}.

Lemma ascii_digit_tests (c : Z) :
  ascii_digit c ->
  is_space c = false /\ is_digit c = true /\ in_range 48 57 c = true
  /\ (c =? 10) = false /\ (c =? 13) = false.
Proof.
  unfold ascii_digit, is_space, is_digit, in_range. intros Hc.
  replace (c <? 128) with true by (symmetry; apply Z.ltb_lt; lia).
  repeat split;
    repeat match goal with
           | |- context [?x <=? ?y] =>
             first
               [ replace (x <=? y) with true by (symmetry; apply Z.leb_le; lia)
               | replace (x <=? y) with false by (symmetry; apply Z.leb_gt; lia) ]
           end; try reflexivity; apply Z.eqb_neq; lia.
Qed.

Lemma lstrip_head (c : Z) (s : text) :
  is_space c = false -> lstrip (c :: s) = c :: s.
Proof. intros Hc. simpl. rewrite Hc. reflexivity. Qed.

(** A line made of a body and its newline is stripped to the body, when
    the body begins and ends with characters that are not white space. *)
Lemma strip_line (first last : Z) (mid : text) :
  is_space first = false -> is_space last = false ->
  strip (first :: (mid ++ [last] ++ [10])) = first :: (mid ++ [last]).
Proof.
  intros Hf Hl. unfold strip.
  assert (Hnl : is_space 10 = true) by reflexivity.
  rewrite (lstrip_head first _ Hf).
  assert (E : rev (first :: (mid ++ [last] ++ [10]))
              = 10 :: last :: rev (first :: mid)).
  { simpl. rewrite rev_app_distr. reflexivity. }
  rewrite E.
  assert (L : lstrip (10 :: last :: rev (first :: mid))
              = last :: rev (first :: mid)).
  { cbn [lstrip]. rewrite Hnl, Hl. reflexivity. }
  rewrite L.
  change (rev (last :: rev (first :: mid)))
    with (rev (rev (first :: mid)) ++ [last]).
  rewrite rev_involutive. reflexivity.
Qed.

Lemma strip_line_one (c : Z) :
  is_space c = false -> strip [c; 10] = [c].
Proof.
  intros Hc. unfold strip. simpl. rewrite Hc. simpl. rewrite Hc. reflexivity.
Qed.

Lemma text_ends (ds : text) :
  ds <> [] ->
  (exists c, ds = [c])
  \/ (exists first mid last, ds = first :: (mid ++ [last])).
Proof.
  intros Hne. destruct ds as [|c ds]; [congruence|].
  destruct ds as [|d ds] using rev_ind.
  - left. exists c. reflexivity.
  - right. exists c, ds, d. reflexivity.
Qed.

Lemma strip_digits_line (ds : text) :
  ds <> [] -> Forall ascii_digit ds -> strip (ds ++ [10]) = ds.
Proof.
  intros Hne Hd. rewrite List.Forall_forall in Hd.
  destruct (text_ends ds Hne) as [(c & ->)|(a & mid & z & ->)].
  - apply strip_line_one. apply ascii_digit_tests, Hd. simpl. tauto.
  - replace ((a :: (mid ++ [z])) ++ [10]) with (a :: (mid ++ [z] ++ [10]))
      by (simpl; rewrite <- app_assoc; reflexivity).
    apply strip_line; apply ascii_digit_tests, Hd.
    + simpl. tauto.
    + simpl. rewrite List.in_app_iff. simpl. tauto.
Qed.

Lemma strip_minus_line (ds : text) :
  ds <> [] -> Forall ascii_digit ds ->
  strip ((45 :: ds) ++ [10]) = 45 :: ds.
Proof.
  intros Hne Hd. rewrite List.Forall_forall in Hd.
  assert (Hm : is_space 45 = false) by reflexivity.
  destruct (text_ends ds Hne) as [(c & ->)|(a & mid & z & ->)].
  - apply (strip_line 45 c []); [exact Hm|].
    apply ascii_digit_tests, Hd. simpl. tauto.
  - replace ((45 :: a :: (mid ++ [z])) ++ [10])
      with (45 :: ((a :: mid) ++ [z] ++ [10]))
      by (simpl; rewrite <- app_assoc; reflexivity).
    apply (strip_line 45 z (a :: mid)); [exact Hm|].
    apply ascii_digit_tests, Hd.
    simpl. rewrite List.in_app_iff. simpl. tauto.
Qed.

Lemma isdigit_digits (ds : text) :
  ds <> [] -> Forall ascii_digit ds ->
  isdigit ds = true /\ forallb (in_range 48 57) ds = true
  /\ isdigit (45 :: ds) = false.
Proof.
  intros Hne Hd.
  assert (A : forallb is_digit ds = true).
  { apply forallb_forall. intros c Hc. apply ascii_digit_tests.
    rewrite List.Forall_forall in Hd. apply Hd, Hc. }
  assert (B : forallb (in_range 48 57) ds = true).
  { apply forallb_forall. intros c Hc. apply ascii_digit_tests.
    rewrite List.Forall_forall in Hd. apply Hd, Hc. }
  split; [|split; [exact B|reflexivity]].
  destruct ds; [congruence|exact A].
Qed.

(** What one written line gives back. *)
Lemma load_written_line (user_id : Z) (rest : list text) (blocked : gset Z) :
  user_id < 2 ^ 63 ->
  load_lines ((str_of_int user_id ++ [10]) :: rest) blocked
  = load_lines rest
      (if 0 <=? user_id then {[ user_id ]} ∪ blocked else blocked).
Proof.
  intros Hb. cbn [load_lines]. unfold str_of_int.
  destruct (Z.ltb_spec user_id 0) as [Hneg|Hpos].
  - destruct (digits_spec (- user_id) ltac:(lia)) as (Hne & Hd & _ & _).
    rewrite (strip_minus_line _ Hne Hd).
    rewrite (proj2 (proj2 (isdigit_digits _ Hne Hd))).
    replace (0 <=? user_id) with false by (symmetry; apply Z.leb_gt; lia).
    reflexivity.
  - destruct (digits_spec user_id Hpos) as (Hne & Hd & Hv & Hl).
    rewrite (strip_digits_line _ Hne Hd).
    destruct (isdigit_digits _ Hne Hd) as (Hi & Hr & _).
    rewrite Hi. unfold py_int. rewrite Hr.
    assert (Hlen : (List.length (digits user_id) <= 4300)%nat).
    { assert (Z.log2 user_id < 63).
      { destruct (Z.eq_dec user_id 0) as [->|Hnz]; [reflexivity|].
        apply Z.log2_lt_pow2; lia. }
      pose proof (Z.log2_nonneg user_id). lia. }
    replace (List.length (digits user_id) <=? 4300)%nat with true
      by (symmetry; apply Nat.leb_le; exact Hlen).
    simpl. rewrite Hv.
    replace (0 <=? user_id) with true by (symmetry; apply Z.leb_le; lia).
    reflexivity.
Qed.

Lemma str_of_int_chars (user_id : Z) :
  Forall (fun c => (c =? 10) = false /\ (c =? 13) = false) (str_of_int user_id).
Proof.
  assert (G : forall n, 0 <= n ->
            Forall (fun c => (c =? 10) = false /\ (c =? 13) = false) (digits n)).
  { intros n Hn. destruct (digits_spec n Hn) as (_ & Hd & _ & _).
    eapply List.Forall_impl; [|exact Hd]. intros c Hc.
    split; apply ascii_digit_tests; exact Hc. }
  unfold str_of_int. destruct (Z.ltb_spec user_id 0).
  - constructor; [split; reflexivity|]. apply G. lia.
  - apply G. lia.
Qed.

Lemma universal_newlines_plain (s : text) :
  Forall (fun c => (c =? 13) = false) s -> universal_newlines s = s.
Proof.
  induction 1 as [|c s Hc Hs IH]; [reflexivity|].
  cbn [universal_newlines]. rewrite Hc, IH. reflexivity.
Qed.

Lemma lines_from_line (body rest : text) :
  Forall (fun c => (c =? 10) = false) body ->
  forall cur,
    lines_from cur (body ++ [10] ++ rest)
    = (cur ++ body ++ [10]) :: lines_from [] rest.
Proof.
  induction 1 as [|c body Hc Hb IH]; intros cur.
  - reflexivity.
  - change ((c :: body) ++ [10] ++ rest) with (c :: (body ++ [10] ++ rest)).
    cbn [lines_from]. rewrite Hc, IH, <- app_assoc. reflexivity.
Qed.

Lemma file_lines_written (ids : list Z) :
  file_lines (written ids) = map (fun user_id => str_of_int user_id ++ [10]) ids.
Proof.
  unfold file_lines.
  assert (Hcr : Forall (fun c => (c =? 13) = false) (written ids)).
  { unfold written. induction ids as [|x ids IH]; [constructor|].
    simpl. rewrite <- app_assoc. apply Forall_app. split.
    - eapply List.Forall_impl; [|apply str_of_int_chars]. intros c Hc. apply Hc.
    - constructor; [reflexivity|exact IH]. }
  rewrite (universal_newlines_plain _ Hcr). clear Hcr.
  unfold written. induction ids as [|x ids IH]; [reflexivity|].
  simpl. rewrite <- app_assoc.
  rewrite (lines_from_line (str_of_int x)).
  - rewrite IH. reflexivity.
  - eapply List.Forall_impl; [|apply str_of_int_chars]. intros c Hc. apply Hc.
Qed.

Lemma load_written (ids : list Z) :
  Forall (fun user_id => user_id < 2 ^ 63) ids ->
  forall blocked v,
    v ∈ load_lines (file_lines (written ids)) blocked
    <-> v ∈ blocked \/ (In v ids /\ 0 <= v).
Proof.
  rewrite file_lines_written.
  induction 1 as [|x ids Hx Hids IH]; intros blocked v.
  - simpl. tauto.
  - simpl map. rewrite (load_written_line x _ blocked Hx), IH.
    destruct (Z.leb_spec 0 x) as [Hp|Hn]; simpl.
    + rewrite elem_of_union, elem_of_singleton.
      split; [intros [[->|Hv]|[Hv Hv']]|intros [Hv|[[->|Hv] Hv']]]; tauto.
    + split; [intros [Hv|[Hv Hv']]|intros [Hv|[[->|Hv] Hv']]]; try tauto; lia.
Qed.

(** X12. Saving and loading the blocked users.  After
    [save_blocked_users], in whatever order the set was written,
    [load_blocked_users] adds to the manager that reads the file exactly
    the identifiers that are not negative: a blocked user with a
    non-negative identifier is blocked again after a restart, and a
    negative identifier is not restored, because its line is not a string
    of digits. *)
Theorem blocked_users_save_load (sm fresh : SecurityManager) (ids : list Z) :
  (forall v, In v ids <-> v ∈ blocked_users sm) ->
  (forall v, v ∈ blocked_users sm -> v < 2 ^ 63) ->
  forall v,
    (v ∈ blocked_users (load_blocked_users (Some (written ids)) fresh)
     <-> v ∈ blocked_users fresh \/ (v ∈ blocked_users sm /\ 0 <= v))
    /\ (v ∈ blocked_users
              (load_blocked_users (Some (save_blocked_users sm)) fresh)
        <-> v ∈ blocked_users fresh \/ (v ∈ blocked_users sm /\ 0 <= v))
    /\ load_blocked_users None fresh = fresh.
Proof.
  intros Hids Hb v. split; [|split; [|reflexivity]].
  - simpl. rewrite load_written.
    + rewrite Hids. reflexivity.
    + apply List.Forall_forall. intros x Hx. apply Hb, Hids, Hx.
  - simpl. unfold save_blocked_users. rewrite load_written.
    + rewrite <- list_elem_of_In, elem_of_elements. reflexivity.
    + apply List.Forall_forall. intros x Hx. apply Hb.
      apply elem_of_elements, list_elem_of_In, Hx.
Qed.

End RoundTrip.

Lemma blocked_users_save_load_witness :
  let sm := {| user_actions := ∅; blocked_users := {[ 12; -5 ]} |} in
  let fresh := {| user_actions := ∅; blocked_users := ∅ |} in
  12 ∈ blocked_users
         (load_blocked_users (H := plain_numerals) (Some (written [12; -5])) fresh)
  /\ ~ -5 ∈ blocked_users
              (load_blocked_users (H := plain_numerals)
                                  (Some (written [12; -5])) fresh).
Proof.
  intros sm fresh.
  assert (Hids : forall v, In v [12; -5] <-> v ∈ blocked_users sm).
  { intros v. simpl. unfold sm. simpl. set_solver. }
  assert (Hb : forall v, v ∈ blocked_users sm -> v < 2 ^ 63).
  { intros v Hv. apply Hids in Hv. simpl in Hv.
    destruct Hv as [<-|[<-|[]]]; reflexivity. }
  split.
  - apply (proj1 (blocked_users_save_load (H := plain_numerals)
                    sm fresh [12; -5] Hids Hb 12)).
    right. split; [apply Hids; simpl; tauto|lia].
  - intros Hin.
    apply (proj1 (blocked_users_save_load (H := plain_numerals)
                    sm fresh [12; -5] Hids Hb (-5))) in Hin.
    destruct Hin as [Hin|[_ Hin]]; [|lia].
    unfold fresh in Hin. simpl in Hin. set_solver.
Defined.

(** * Further properties of [scheduler_optimized.py] *)

(** ** One delivery *)

(** The events added by a computation that starts in [w]. *)
Definition added (w w' : World) : list event :=
  skipn (List.length (trace w)) (trace w').

Lemma added_app (w w' : World) (evs : list event) :
  trace w' = trace w ++ evs -> added w w' = evs.
Proof.
  intros E. unfold added. rewrite E. apply drop_app_length.
Qed.

Ltac worker_cases :=
  cbv beta iota zeta delta
    [_send_to_user try_except bind ret raise send_message sleep
     log_notification mark_user_inactive emit];
  repeat match goal with
         | _ => progress cbn [fst snd trace sends sleeps send_script
                              sleep_script is_Exception exn_str]
         | |- context [match send_script ?w ?k with _ => _ end] =>
           let E := fresh "Esend" in
           destruct (send_script w k) as [[]|] eqn:E
         | |- context [match sleep_script ?w ?k with _ => _ end] =>
           let E := fresh "Esleep" in
           destruct (sleep_script w k) as [[]|] eqn:E
         | |- context [if contains ?a ?b then _ else _] =>
           let E := fresh "Eblocked" in
           destruct (contains a b) eqn:E
         end.

Section OneDelivery.
Context `{Unicode}.

(** The errors on which the worker deactivates the recipient. *)
Definition is_blocked_error (e : exn) : bool :=
  match e with
  | Forbidden _ => true
  | TelegramError m => contains (u "blocked") (py_lower m)
  | _ => false
  end.

(** The sends of one delivery, among the events it adds. *)
Lemma worker_sends (user_id : Z) (txt : text) (w : World) :
  exists evs,
    trace (snd (_send_to_user user_id txt w)) = trace w ++ evs
    /\ (S (sends w) <= sends (snd (_send_to_user user_id txt w))
        <= S (S (sends w)))%nat
    /\ send_count evs
       = (sends (snd (_send_to_user user_id txt w)) - sends w)%nat
    /\ (forall chat_id t, In (EvSend chat_id t) evs ->
          chat_id = user_id /\ t = txt).
Proof.
  worker_cases;
    rewrite <- ?app_assoc; cbn [app];
    (eexists; split; [reflexivity|]);
    (split; [lia|]);
    (split; [unfold send_count; cbn; lia|]);
    intros chat_id t Hin; cbn in Hin;
    repeat match goal with
           | Hin : _ \/ _ |- _ => destruct Hin as [Hin|Hin]
           | Hin : False |- _ => destruct Hin
           | Hin : EvSend _ _ = EvSend _ _ |- _ =>
             inversion Hin; subst; split; reflexivity
           | Hin : _ = EvSend _ _ |- _ => discriminate Hin
           end.
Qed.

(** X13. The retry budget.  Whatever the transport and the event loop do,
    one delivery calls [bot.send_message] once or twice, never more, and
    only for its own recipient. *)
Theorem worker_sends_once_or_twice (user_id : Z) (txt : text) (w : World) :
  let w' := snd (_send_to_user user_id txt w) in
  (S (sends w) <= sends w' <= S (S (sends w)))%nat
  /\ send_count (added w w') = (sends w' - sends w)%nat
  /\ (forall chat_id t, In (EvSend chat_id t) (added w w') ->
        chat_id = user_id /\ t = txt).
Proof.
  intros w'. subst w'.
  destruct (worker_sends user_id txt w) as (evs & E & Hb & Hc & Hs).
  rewrite (added_app _ _ _ E).
  split; [exact Hb|]. split; [exact Hc|exact Hs].
Qed.

(** The message reached the transport: at the first send, or at the
    second after a rate-limit signal. *)
Definition delivered (w : World) : Prop :=
  send_script w (sends w) = None
  \/ (exists T m, send_script w (sends w) = Some (RetryAfter T m)
                  /\ send_script w (S (sends w)) = None).

(** X14. The outcome of one delivery when its sleep is not interrupted.
    The worker returns true exactly when the message was delivered, at
    the first send or at the retry; otherwise it returns false, or lets a
    [CancelledError] through.  The notification is logged as sent exactly
    when the worker returns true.  The recipient is marked inactive
    exactly when the first send fails with [Forbidden] or with a
    [TelegramError] whose message contains the word blocked - an error of
    the retry never deactivates. *)
Theorem worker_outcome (user_id : Z) (txt : text) (w : World) :
  sleep_script w (sleeps w) = None ->
  let out := _send_to_user user_id txt w in
  (fst out = Ok true <-> delivered w)
  /\ (fst out = Ok true \/ fst out = Ok false \/ fst out = Raise CancelledError)
  /\ (In (EvLog user_id 0 "sent" None) (added w (snd out)) <-> fst out = Ok true)
  /\ (In (EvInactive user_id) (added w (snd out))
      <-> exists e, send_script w (sends w) = Some e
                    /\ is_blocked_error e = true).
Proof.
  intros Hs out. subst out. unfold delivered.
  assert (G : exists evs,
             trace (snd (_send_to_user user_id txt w)) = trace w ++ evs
             /\ (fst (_send_to_user user_id txt w) = Ok true <-> delivered w)
             /\ (fst (_send_to_user user_id txt w) = Ok true
                 \/ fst (_send_to_user user_id txt w) = Ok false
                 \/ fst (_send_to_user user_id txt w) = Raise CancelledError)
             /\ (In (EvLog user_id 0 "sent" None) evs
                 <-> fst (_send_to_user user_id txt w) = Ok true)
             /\ (In (EvInactive user_id) evs
                 <-> exists e, send_script w (sends w) = Some e
                               /\ is_blocked_error e = true)).
  { unfold delivered. worker_cases; try congruence;
      rewrite <- ?app_assoc; cbn [app];
      (eexists; split; [reflexivity|]);
      cbn [In is_blocked_error];
      repeat split; intros;
      repeat match goal with
             | X : _ \/ _ |- _ => destruct X
             | X : _ /\ _ |- _ => destruct X
             | X : exists _, _ |- _ => destruct X
             | X : False |- _ => destruct X
             | X : Some _ = Some _ |- _ => inversion X; clear X; subst
             | X : is_blocked_error _ = true |- _ => cbn [is_blocked_error] in X
             end;
      try discriminate; try congruence;
      try solve [auto 6];
      try solve [eexists; split; [reflexivity|]; cbn [is_blocked_error];
                 congruence];
      try solve [right; eauto 6]. }
  destruct G as (evs & E & G). rewrite (added_app _ _ _ E). exact G.
Qed.

End OneDelivery.

Lemma worker_outcome_witness :
  let w := world_with_sends [2] (answer_first (RetryAfter 5 [])) in
  fst (_send_to_user (H := plain_unicode) 2 (u "hi") w) = Ok true.
Proof.
  intros w.
  apply (proj1 (worker_outcome (H := plain_unicode) 2 (u "hi") w eq_refl)).
  right. exists 5, []. split; reflexivity.
Defined.

(** ** A whole run *)

(** The run leaves the environment as it found it: the scripts of the
    transport and of the event loop, the clock and its number of readings,
    and what the database returns. *)
Definition stable (w w' : World) : Prop :=
  send_script w' = send_script w
  /\ sleep_script w' = sleep_script w
  /\ clock w' = clock w
  /\ active_users w' = active_users w
  /\ random_phrase w' = random_phrase w
  /\ ticks w' = ticks w.

Lemma stable_refl (w : World) : stable w w.
Proof. repeat split. Qed.

Lemma stable_trans (w1 w2 w3 : World) :
  stable w1 w2 -> stable w2 w3 -> stable w1 w3.
Proof.
  unfold stable. intros (A1 & A2 & A3 & A4 & A5 & A6) (B1 & B2 & B3 & B4 & B5 & B6).
  repeat split; congruence.
Qed.

Definition recipients (batches : list (list Z)) : nat :=
  List.length (concat batches).

Section WholeRun.
Context `{Unicode}.

Lemma worker_stable (user_id : Z) (txt : text) (w : World) :
  stable w (snd (_send_to_user user_id txt w)).
Proof.
  unfold stable. worker_cases; repeat split; reflexivity.
Qed.

Lemma worker_sleeps (user_id : Z) (txt : text) (w : World) :
  (sleeps w <= sleeps (snd (_send_to_user user_id txt w)))%nat.
Proof.
  worker_cases; lia.
Qed.

Lemma gather_run (txt : text) (user_ids : list Z) :
  forall w,
    let w' := snd (gather (map (fun user_id => _send_to_user user_id txt)
                               user_ids) w) in
    stable w w'
    /\ (sends w + List.length user_ids <= sends w')%nat
    /\ (sends w' <= sends w + 2 * List.length user_ids)%nat.
Proof.
  induction user_ids as [|x xs IH]; intros w.
  - simpl. split; [apply stable_refl|lia].
  - simpl.
    pose proof (worker_stable x txt w) as Hs.
    destruct (worker_sends x txt w) as (evs & _ & Hb & _).
    destruct (_send_to_user x txt w) as [r w1]. simpl in Hs, Hb.
    specialize (IH w1). simpl in IH.
    destruct (gather _ w1) as [rs w2]. simpl in IH |- *.
    destruct IH as (Hs2 & Hlo & Hhi).
    split; [apply (stable_trans w w1 w2); assumption|]. lia.
Qed.

Lemma send_batch_run (batch : list Z) (txt : text) (w : World) :
  exists sent_count failed_count w',
    _send_batch batch txt w = (Ok (sent_count, failed_count), w')
    /\ (sent_count + failed_count)%nat = List.length batch
    /\ stable w w'
    /\ (sends w + List.length batch <= sends w')%nat
    /\ (sends w' <= sends w + 2 * List.length batch)%nat.
Proof.
  unfold _send_batch.
  pose proof (gather_run txt batch w) as G.
  pose proof (gather_length (map (fun user_id => _send_to_user user_id txt) batch) w)
    as L.
  rewrite List.length_map in L.
  destruct (gather _ w) as [rs w']. simpl in G, L.
  rewrite (count_results_spec _ _ L).
  eexists _, _, w'. split; [reflexivity|].
  split; [rewrite sent_plus_failed; exact L|exact G].
Qed.

Lemma dispatch_run (total : nat) (txt : text) (batches : list (list Z)) :
  forall k s f w,
    let out := dispatch total k batches txt s f w in
    stable w (snd out)
    /\ (sends (snd out) <= sends w + 2 * recipients batches)%nat
    /\ (fst (fst out) = Ok tt ->
        (fst (snd (fst out)) + snd (snd (fst out)))%nat
        = (s + f + recipients batches)%nat
        /\ (sends w + recipients batches <= sends (snd out))%nat)
    /\ ((forall i, sleep_script w i = None) -> fst (fst out) = Ok tt).
Proof.
  unfold recipients.
  induction batches as [|b rest IH]; intros k s f w.
  - simpl. split; [apply stable_refl|]. split; [lia|]. split; [|reflexivity].
    intros _. split; lia.
  - cbv zeta. cbn [dispatch]. unfold bind, log_batch. cbv beta iota.
    destruct (send_batch_run b txt (emit (EvBatch k total (List.length b)) w))
      as (bs_ & bf_ & w1 & E & Hsum & Hst & Hlo & Hhi).
    rewrite E. simpl concat. rewrite List.length_app.
    assert (Hst0 : stable w w1).
    { apply (stable_trans w (emit (EvBatch k total (List.length b)) w) w1);
        [repeat split|exact Hst]. }
    cbn [sends emit] in Hlo, Hhi.
    assert (Hp : exists w2,
               ((if (k <? total)%nat then sleep batch_delay else ret tt) w1
                = (Ok tt, w2)
                \/ exists e,
                     (if (k <? total)%nat then sleep batch_delay else ret tt) w1
                     = (Raise e, w2)
                     /\ sleep_script w1 (sleeps w1) = Some e)
               /\ stable w1 w2 /\ sends w2 = sends w1).
    { destruct (k <? total)%nat.
      - unfold sleep. destruct (sleep_script w1 (sleeps w1)) as [e|] eqn:Es.
        + eexists. split; [right; exists e; split; reflexivity|].
          repeat split.
        + eexists. split; [left; reflexivity|]. repeat split.
      - exists w1. split; [left; reflexivity|]. split; [apply stable_refl|].
        reflexivity. }
    destruct Hp as (w2 & [Ep|(e & Ep & Es)] & Hst2 & Hsd); rewrite Ep.
    + specialize (IH (S k) (s + bs_)%nat (f + bf_)%nat w2).
      cbv zeta in IH.
      destruct (dispatch total (S k) rest txt (s + bs_) (f + bf_) w2)
        as [[r [s' f']] w3].
      simpl in IH |- *. destruct IH as (Hst3 & Hhi3 & Hok & Hnf).
      split; [apply (stable_trans w w1 w3); [exact Hst0|];
              apply (stable_trans w1 w2 w3); assumption|].
      split; [lia|]. split.
      * intros Hr. destruct (Hok Hr) as [Hc Hl]. split; lia.
      * intros Hall. apply Hnf. intros i.
        destruct Hst0 as (_ & Q0 & _). destruct Hst2 as (_ & Q2 & _).
        rewrite Q2, Q0. apply Hall.
    + simpl. split; [apply (stable_trans w w1 w2); assumption|].
      split; [lia|]. split; [discriminate|].
      intros Hall. destruct Hst0 as (_ & Q0 & _).
      rewrite Q0, Hall in Es. discriminate Es.
Qed.

End WholeRun.

(** Number of calls of [bot.send_message] for the recipient [v] among the
    events, and number of times [v] stands in a list of recipients. *)
Definition sends_to (v : Z) (evs : list event) : nat :=
  List.length
    (List.filter
       (fun e => match e with EvSend chat_id _ => chat_id =? v | _ => false end)
       evs).

Definition occurrences (v : Z) (user_ids : list Z) : nat :=
  List.length (List.filter (fun x => x =? v) user_ids).

(** Each recipient is sent to at least once and at most twice for each of
    its places in the list. *)
Definition once_or_twice_each (user_ids : list Z) (evs : list event) : Prop :=
  forall v,
    (occurrences v user_ids <= sends_to v evs)%nat
    /\ (sends_to v evs <= 2 * occurrences v user_ids)%nat.

Definition at_most_twice_each (user_ids : list Z) (evs : list event) : Prop :=
  forall v, (sends_to v evs <= 2 * occurrences v user_ids)%nat.

Lemma sends_to_app (v : Z) (e1 e2 : list event) :
  sends_to v (e1 ++ e2) = (sends_to v e1 + sends_to v e2)%nat.
Proof. unfold sends_to. rewrite List.filter_app, List.length_app. reflexivity. Qed.

Lemma occurrences_app (v : Z) (a b : list Z) :
  occurrences v (a ++ b) = (occurrences v a + occurrences v b)%nat.
Proof.
  unfold occurrences. rewrite List.filter_app, List.length_app. reflexivity.
Qed.

Lemma once_or_twice_each_app (a b : list Z) (e1 e2 : list event) :
  once_or_twice_each a e1 -> once_or_twice_each b e2 ->
  once_or_twice_each (a ++ b) (e1 ++ e2).
Proof.
  intros H1 H2 v. rewrite sends_to_app, occurrences_app.
  destruct (H1 v), (H2 v). lia.
Qed.

Lemma at_most_twice_each_app (a b : list Z) (e1 e2 : list event) :
  at_most_twice_each a e1 -> at_most_twice_each b e2 ->
  at_most_twice_each (a ++ b) (e1 ++ e2).
Proof.
  intros H1 H2 v. rewrite sends_to_app, occurrences_app.
  specialize (H1 v). specialize (H2 v). lia.
Qed.

Lemma once_or_twice_at_most (a : list Z) (evs : list event) :
  once_or_twice_each a evs -> at_most_twice_each a evs.
Proof. intros Ha v. apply Ha. Qed.

Section SendsPerUser.
Context `{Unicode}.

Lemma worker_sends_to (user_id : Z) (txt : text) (w : World) :
  exists evs,
    trace (snd (_send_to_user user_id txt w)) = trace w ++ evs
    /\ once_or_twice_each [user_id] evs.
Proof.
  destruct (worker_sends user_id txt w) as (evs & E & Hb & Hc & Hs).
  exists evs. split; [exact E|]. intros v.
  unfold occurrences. cbn [List.filter].
  destruct (Z.eqb_spec user_id v) as [->|Hne]; cbn [List.length].
  - assert (Eq : sends_to v evs = send_count evs).
    { unfold sends_to, send_count. f_equal. apply List.filter_ext_in.
      intros e He. destruct e; try reflexivity.
      destruct (Hs _ _ He) as [-> _]. apply Z.eqb_refl. }
    rewrite Eq, Hc. lia.
  - assert (Eq : sends_to v evs = 0%nat).
    { unfold sends_to.
      assert (Ef : List.filter
                     (fun e => match e with
                               | EvSend chat_id _ => chat_id =? v
                               | _ => false
                               end) evs
                   = List.filter (fun _ => false) evs).
      { apply List.filter_ext_in. intros e He. destruct e; try reflexivity.
        destruct (Hs _ _ He) as [-> _]. apply Z.eqb_neq. exact Hne. }
      rewrite Ef. clear. induction evs; simpl; auto. }
    rewrite Eq. lia.
Qed.

Lemma gather_sends_to (txt : text) (user_ids : list Z) :
  forall w,
    exists evs,
      trace (snd (gather (map (fun user_id => _send_to_user user_id txt)
                              user_ids) w))
      = trace w ++ evs
      /\ once_or_twice_each user_ids evs.
Proof.
  induction user_ids as [|x xs IH]; intros w.
  - exists []. split; [simpl; rewrite app_nil_r; reflexivity|].
    intros v. unfold occurrences, sends_to. simpl. lia.
  - simpl.
    destruct (worker_sends_to x txt w) as (e1 & E1 & H1).
    destruct (_send_to_user x txt w) as [r w1]. simpl in E1.
    destruct (IH w1) as (e2 & E2 & H2).
    destruct (gather _ w1) as [rs w2]. simpl in E2 |- *.
    exists (e1 ++ e2). split; [rewrite E2, E1, app_assoc; reflexivity|].
    apply (once_or_twice_each_app [x] xs); assumption.
Qed.

Lemma dispatch_sends_to (total : nat) (txt : text) (batches : list (list Z)) :
  forall k s f w,
    let out := dispatch total k batches txt s f w in
    exists evs,
      trace (snd out) = trace w ++ evs
      /\ at_most_twice_each (concat batches) evs
      /\ (fst (fst out) = Ok tt -> once_or_twice_each (concat batches) evs).
Proof.
  assert (Hnone : forall us, once_or_twice_each [] us -> True) by (intros; exact I).
  induction batches as [|b rest IH]; intros k s f w.
  - simpl. exists []. rewrite app_nil_r. split; [reflexivity|].
    split; intros; intros v; unfold occurrences, sends_to; simpl; lia.
  - cbv zeta. cbn [dispatch]. unfold bind, log_batch. cbv beta iota.
    set (w0 := emit (EvBatch k total (List.length b)) w).
    destruct (gather_sends_to txt b w0) as (work & Ew & Hw).
    unfold _send_batch.
    destruct (gather (map (fun user_id => _send_to_user user_id txt) b) w0)
      as [rs w1]. simpl in Ew.
    destruct (count_results b rs) as [bs_ bf_].
    assert (E0 : trace w1 = trace w ++ (EvBatch k total (List.length b) :: work)).
    { rewrite Ew. unfold w0. simpl. rewrite <- app_assoc. reflexivity. }
    assert (Hb : once_or_twice_each b (EvBatch k total (List.length b) :: work)).
    { intros v. specialize (Hw v). unfold sends_to in *. simpl. exact Hw. }
    simpl concat.
    destruct (k <? total)%nat.
    + unfold sleep. destruct (sleep_script w1 (sleeps w1)) as [e|].
      * simpl. exists ((EvBatch k total (List.length b) :: work) ++ [EvSleep batch_delay]).
        split; [rewrite E0, <- app_assoc; reflexivity|].
        split; [|discriminate].
        rewrite <- (app_nil_r (b ++ concat rest)), <- app_assoc.
        apply at_most_twice_each_app.
        -- apply once_or_twice_at_most, Hb.
        -- intros v. rewrite occurrences_app. unfold sends_to. simpl. lia.
      * match goal with
        | |- context [dispatch total (S k) rest txt ?s' ?f' ?w2] =>
          specialize (IH (S k) s' f' w2); cbv zeta in IH;
            destruct (dispatch total (S k) rest txt s' f' w2) as [[r c] w3]
        end.
        simpl in IH |- *. destruct IH as (evs & E3 & Hat & Hok).
        exists ((EvBatch k total (List.length b) :: work)
                ++ (EvSleep batch_delay :: evs)).
        split; [rewrite E3; simpl; rewrite E0, <- !app_assoc; reflexivity|].
        assert (Hsl : forall v, sends_to v (EvSleep batch_delay :: evs)
                                = sends_to v evs) by reflexivity.
        split.
        -- apply at_most_twice_each_app; [apply once_or_twice_at_most, Hb|].
           intros v. rewrite Hsl. apply Hat.
        -- intros Hr. apply once_or_twice_each_app; [exact Hb|].
           intros v. rewrite Hsl. apply (Hok Hr).
    + unfold ret.
      match goal with
      | |- context [dispatch total (S k) rest txt ?s' ?f' ?w2] =>
        specialize (IH (S k) s' f' w2); cbv zeta in IH;
          destruct (dispatch total (S k) rest txt s' f' w2) as [[r c] w3]
      end.
      simpl in IH |- *. destruct IH as (evs & E3 & Hat & Hok).
      exists ((EvBatch k total (List.length b) :: work) ++ evs).
      split; [rewrite E3, E0, <- !app_assoc; reflexivity|].
      split.
      * apply at_most_twice_each_app; [apply once_or_twice_at_most, Hb|exact Hat].
      * intros Hr. apply once_or_twice_each_app; [exact Hb|apply (Hok Hr)].
Qed.

End SendsPerUser.

Section RunResults.
Context `{Unicode}.

Lemma recipients_make_batches (users : list Z) :
  recipients (make_batches users batch_size) = List.length users.
Proof.
  unfold recipients.
  rewrite (proj1 (make_batches_partition batch_size users
                    ltac:(unfold batch_size; lia))).
  reflexivity.
Qed.

(** X15. A run without work.  When the flag is free but there is no
    active user, or no phrase (none, or an empty one), the invocation
    returns at once: the scheduler is exactly as before (no run is
    counted, the statistics are untouched, the flag is free again) and
    nothing was sent; only the clock was read once. *)
Theorem run_without_work (sch : Scheduler) (w : World) :
  is_sending sch = false ->
  active_users w = [] \/ random_phrase w = None \/ random_phrase w = Some [] ->
  send_batch_notification sch w = (Ok tt, sch, snd (time w))
  /\ trace (snd (time w)) = trace w
  /\ sends (snd (time w)) = sends w.
Proof.
  intros Hf Hw. split; [|split; reflexivity].
  unfold send_batch_notification. rewrite Hf. unfold time, run_try.
  cbn [active_users random_phrase].
  assert (E : set_sending false (set_sending true sch) = sch).
  { destruct sch. simpl in Hf. subst. reflexivity. }
  destruct Hw as [Hu|[Hp|Hp]].
  - rewrite Hu. rewrite E. reflexivity.
  - rewrite Hp. destruct (active_users w); rewrite E; reflexivity.
  - rewrite Hp. destruct (active_users w); rewrite E; reflexivity.
Qed.

(** X16. A run that is not interrupted.  With at least one active user,
    a phrase that is not empty and no sleep interrupted, the invocation
    returns normally with the flag free and one more run counted; the
    lifetime counters of sent and failed notifications grow together by
    exactly the number of active users; the duration recorded is the
    difference of the two readings of the clock; and the transport was
    called at least once and at most twice for each active user (for each
    place the user has in the list of active users), hence between once
    and twice the number of active users in all. *)
Theorem completed_run_accounts_for_every_user (sch : Scheduler) (w : World)
    (c : Z) (txt : text) :
  is_sending sch = false ->
  active_users w <> [] ->
  random_phrase w = Some (c :: txt) ->
  (forall i, sleep_script w i = None) ->
  let out := send_batch_notification sch w in
  let sch' := snd (fst out) in
  let w' := snd out in
  fst (fst out) = Ok tt
  /\ is_sending sch' = false
  /\ notification_count sch' = S (notification_count sch)
  /\ (total_sent (stats sch') + total_failed (stats sch'))%nat
     = (total_sent (stats sch) + total_failed (stats sch)
        + List.length (active_users w))%nat
  /\ last_batch_time (stats sch')
     = Some (clock w (S (ticks w)) - clock w (ticks w))%Q
  /\ (sends w + List.length (active_users w) <= sends w')%nat
  /\ (sends w' <= sends w + 2 * List.length (active_users w))%nat
  /\ (forall v,
        (occurrences v (active_users w) <= sends_to v (added w w'))%nat
        /\ (sends_to v (added w w') <= 2 * occurrences v (active_users w))%nat).
Proof.
  intros Hf Hu Hp Hs. cbv zeta.
  unfold send_batch_notification. rewrite Hf. unfold time.
  set (w1 := {| send_script := send_script w; sleep_script := sleep_script w;
                clock := clock w; active_users := active_users w;
                random_phrase := random_phrase w; sends := sends w;
                sleeps := sleeps w; ticks := S (ticks w); trace := trace w |}).
  assert (Hw1 : sleep_script w1 = sleep_script w /\ clock w1 = clock w
                /\ ticks w1 = S (ticks w) /\ sends w1 = sends w
                /\ active_users w1 = active_users w
                /\ random_phrase w1 = random_phrase w
                /\ trace w1 = trace w)
    by (repeat split; reflexivity).
  clearbody w1. destruct Hw1 as (Q1 & Q2 & Q3 & Q4 & Q5 & Q6 & Q7).
  unfold run_try. rewrite Q5, Q6, Hp.
  destruct (active_users w) as [|x users] eqn:Eu; [congruence|].
  set (batches := make_batches (x :: users) batch_size).
  pose proof (dispatch_run (List.length batches) (c :: txt) batches 1 0 0 w1)
    as D.
  cbv zeta in D.
  pose proof (recipients_make_batches (x :: users)) as R. fold batches in R.
  rewrite R in D.
  pose proof (dispatch_sends_to (List.length batches) (c :: txt) batches 1 0 0 w1)
    as P.
  cbv zeta in P.
  assert (Hcat : concat batches = x :: users)
    by (apply (make_batches_partition batch_size); unfold batch_size; lia).
  rewrite Hcat in P.
  destruct (dispatch (List.length batches) 1 batches (c :: txt) 0 0 w1)
    as [[r [s f]] w2].
  simpl in D, P. destruct D as (Hst & Hhi & Hok & Hnf).
  destruct P as (evs & Etr & _ & Peach).
  assert (Hr : r = Ok tt) by (apply Hnf; intros i; rewrite Q1; apply Hs).
  subst r. destruct (Hok eq_refl) as [Hc Hlo].
  destruct Hst as (_ & _ & Hck & _ & _ & Htk).
  cbn. rewrite Hck, Htk, Q2, Q3.
  assert (Hadd : added w
                   {| send_script := send_script w2;
                      sleep_script := sleep_script w2; clock := clock w;
                      active_users := active_users w2;
                      random_phrase := random_phrase w2; sends := sends w2;
                      sleeps := sleeps w2; ticks := S (S (ticks w));
                      trace := trace w2 |} = evs).
  { apply added_app. simpl. rewrite Etr, Q7. reflexivity. }
  rewrite Hadd.
  split; [reflexivity|]. split; [reflexivity|]. split; [reflexivity|].
  split; [simpl List.length in *; lia|]. split; [reflexivity|].
  split; [simpl List.length in *; lia|].
  split; [simpl List.length in *; lia|].
  apply (Peach eq_refl).
Qed.

(** X17. Whatever happens in an invocation - the flag taken or not, the
    run completed or interrupted by an exception - the transport is never
    called more than twice for each active user (for each place the user
    has in the list of active users), and so never more than twice the
    number of active users in all. *)
Theorem run_never_exceeds_two_sends_per_user (sch : Scheduler) (w : World) :
  let w' := snd (send_batch_notification sch w) in
  (forall v, (sends_to v (added w w') <= 2 * occurrences v (active_users w))%nat)
  /\ (sends w' <= sends w + 2 * List.length (active_users w))%nat.
Proof.
  cbv zeta.
  assert (Hnil : forall v, sends_to v (added w w) = 0%nat).
  { intros v. unfold added. rewrite drop_all. reflexivity. }
  unfold send_batch_notification.
  destruct (is_sending sch);
    [cbn [fst snd]; split; [intros v; rewrite Hnil; lia|lia]|].
  unfold time.
  set (w1 := {| send_script := send_script w; sleep_script := sleep_script w;
                clock := clock w; active_users := active_users w;
                random_phrase := random_phrase w; sends := sends w;
                sleeps := sleeps w; ticks := S (ticks w); trace := trace w |}).
  assert (Hw1 : sends w1 = sends w /\ active_users w1 = active_users w
                /\ trace w1 = trace w)
    by (repeat split; reflexivity).
  assert (Hsame : forall v, sends_to v (added w w1) = 0%nat).
  { intros v. unfold added. simpl. rewrite drop_all. reflexivity. }
  clearbody w1. destruct Hw1 as (Q4 & Q5 & Q7).
  unfold run_try. rewrite Q5.
  destruct (active_users w) as [|x users] eqn:Eu;
    [cbn [fst snd]; split; [intros v; rewrite Hsame; lia|lia]|].
  destruct (random_phrase w1) as [[|c txt]|];
    try (cbn [fst snd]; split; [intros v; rewrite Hsame; lia|lia]).
  set (batches := make_batches (x :: users) batch_size).
  pose proof (dispatch_run (List.length batches) (c :: txt) batches 1 0 0 w1)
    as D.
  cbv zeta in D.
  pose proof (recipients_make_batches (x :: users)) as R. fold batches in R.
  rewrite R in D.
  pose proof (dispatch_sends_to (List.length batches) (c :: txt) batches 1 0 0 w1)
    as P.
  cbv zeta in P.
  assert (Hcat : concat batches = x :: users)
    by (apply (make_batches_partition batch_size); unfold batch_size; lia).
  rewrite Hcat in P.
  destruct (dispatch (List.length batches) 1 batches (c :: txt) 0 0 w1)
    as [[r [s f]] w2].
  simpl in D, P. destruct D as (Hst & Hhi & _ & _).
  destruct P as (evs & Etr & Pmost & _).
  rewrite Q7 in Etr.
  destruct r as [[]|e]; simpl; (split; [|simpl List.length in *; lia]);
    intros v;
    match goal with
    | |- context [added w ?wf] =>
      replace (added w wf) with evs
        by (symmetry; apply added_app; simpl; exact Etr)
    end; apply Pmost.
Qed.

End RunResults.

Lemma run_without_work_witness :
  let w := world_with_sends [] (fun _ => None) in
  send_batch_notification (H := plain_unicode) init w = (Ok tt, init, snd (time w)).
Proof.
  intros w.
  apply (proj1 (run_without_work (H := plain_unicode) init w eq_refl
                  (or_introl eq_refl))).
Defined.

Lemma completed_run_accounts_for_every_user_witness :
  let script k :=
    match k with
    | 1%nat => Some (RetryAfter 1 [])
    | 3%nat => Some (Forbidden [])
    | _ => None
    end in
  let w := world_with_sends [1; 2; 3] script in
  let out := send_batch_notification (H := plain_unicode) init w in
  let sch' := snd (fst out) in
  (total_sent (stats sch') + total_failed (stats sch'))%nat = 3%nat
  /\ notification_count sch' = 1%nat
  /\ (1 <= sends_to 3 (added w (snd out)) <= 2)%nat
  /\ sends_to 2 (added w (snd out)) = 2%nat.
Proof.
  intros script w out sch'.
  destruct (completed_run_accounts_for_every_user (H := plain_unicode)
              init w 104 (u "i"))
    as (_ & _ & Hn & Hc & _ & _ & _ & Heach).
  - reflexivity.
  - discriminate.
  - reflexivity.
  - intros i. reflexivity.
  - split; [exact Hc|]. split; [exact Hn|]. split.
    + destruct (Heach 3) as [Hlo Hhi]. split; [exact Hlo|exact Hhi].
    + vm_compute. reflexivity.
Defined.

(** ** The test notification *)

Section TestNotification.
Context `{Unicode}.

(** [f"{phrase}"] for the optional phrase. *)
Definition format_phrase (phrase : option text) : text :=
  match phrase with
  | Some t => t
  | None => u "None"
  end.

(** The text of the test message for the phrase the database returns. *)
Definition test_message (w : World) : text :=
  u "🧪 ТЕСТ: " ++ format_phrase (random_phrase w).

(** [send_test_notification] *)
Definition send_test_notification (user_id : Z) : M bool :=
  try_except
    (fun w => _send_to_user user_id (test_message w) w)
    (fun e => if is_Exception e then ret false else raise e).

(** X18. The test notification never lets an exception of class
    [Exception] out: it returns what the delivery returned, false when the
    delivery raised, and only a [CancelledError] passes.  It sends to the
    given user only, the phrase behind the test prefix, and at most
    twice. *)
Theorem test_notification_is_contained (user_id : Z) (w : World) :
  let out := send_test_notification user_id w in
  (forall e, fst out = Raise e -> e = CancelledError)
  /\ (forall b, fst (_send_to_user user_id (test_message w) w) = Ok b ->
        fst out = Ok b)
  /\ (forall e, fst (_send_to_user user_id (test_message w) w) = Raise e ->
        is_Exception e = true -> fst out = Ok false)
  /\ (forall chat_id t, In (EvSend chat_id t) (added w (snd out)) ->
        chat_id = user_id /\ t = test_message w)
  /\ (sends (snd out) <= sends w + 2)%nat.
Proof.
  cbv zeta. unfold send_test_notification, try_except.
  destruct (worker_sends user_id (test_message w) w) as (evs & Ev & Hb & _ & Hs).
  rewrite <- (added_app _ _ _ Ev) in Hs.
  destruct (_send_to_user user_id (test_message w) w) as [[b|e] w1] eqn:E;
    simpl in Hb, Hs.
  - simpl. split; [intros e He; discriminate He|].
    split; [intros b' Hb'; exact Hb'|].
    split; [intros e He; discriminate He|].
    split; [exact Hs|lia].
  - destruct (is_Exception e) eqn:He; unfold ret, raise; simpl.
    + split; [intros e' He'; discriminate He'|].
      split; [intros b Hb'; discriminate Hb'|].
      split; [reflexivity|]. split; [exact Hs|lia].
    + split.
      { intros e' He'. inversion He'; subst.
        destruct e'; try discriminate He. reflexivity. }
      split; [intros b Hb'; discriminate Hb'|].
      split; [intros e' He' Hx; inversion He'; subst; congruence|].
      split; [exact Hs|lia].
Qed.

End TestNotification.

(** ** The daily timetable *)

(** The brackets of [schedule_daily_notifications]. *)
Definition time_slots : list (Z * Z) :=
  [(7, 9); (9, 11); (11, 13); (13, 15); (15, 17); (17, 19); (19, 21); (21, 23)].

(** One call of [scheduler.add_job]: the job [daily_notification_i] with a
    cron trigger at [job_hour]:[job_minute]. *)
Record cron_job := {
  job_index : nat;
  job_hour : Z;
  job_minute : Z
}.

(** The loop of [schedule_daily_notifications] over
    [enumerate(used_slots)], from index [i] on.  [randint k a b] is what the
    [k]-th call of [random.randint] returns for the bounds [a] and [b]; the
    loop makes two calls for each slot. *)
Fixpoint plan_from (i : nat) (used_slots : list (Z * Z))
    (randint : nat -> Z -> Z -> Z) : list cron_job :=
  match used_slots with
  | [] => []
  | (start_hour, end_hour) :: rest =>
    let random_hour := randint (2 * i)%nat start_hour (end_hour - 1) in
    let random_minute := randint (2 * i + 1)%nat 0 59 in
    {| job_index := i; job_hour := random_hour; job_minute := random_minute |}
      :: plan_from (S i) rest randint
  end.

(** [schedule_daily_notifications]: the jobs it adds, given the slots that
    [random.sample] drew. *)
Definition schedule_daily_notifications (used_slots : list (Z * Z))
    (randint : nat -> Z -> Z -> Z) : list cron_job :=
  plan_from 0 used_slots randint.

(** What the [random] module promises: [randint(a, b)] lies between its
    bounds, and [sample] draws distinct elements of the population. *)
Definition fair_randint (randint : nat -> Z -> Z -> Z) : Prop :=
  forall k a b, a <= b -> a <= randint k a b <= b.

Definition fair_sample (used_slots : list (Z * Z)) : Prop :=
  NoDup used_slots /\ forall s, In s used_slots -> In s time_slots.

Lemma slot_of_hour (s e h : Z) :
  In (s, e) time_slots -> s <= h <= e - 1 ->
  s = h - (h + 1) mod 2 /\ e = s + 2 /\ 7 <= h <= 22.
Proof.
  unfold time_slots. simpl. intros Hin Hh.
  repeat match goal with
         | X : _ \/ _ |- _ => destruct X as [X|X]
         | X : (_, _) = (_, _) |- _ => inversion X; clear X; subst
         | X : False |- _ => destruct X
         end;
    match type of Hh with
    | ?a <= h <= _ => assert (Hc : h = a \/ h = a + 1) by lia
    end;
    destruct Hc as [Hc|Hc]; subst h;
    repeat split; try reflexivity; lia.
Qed.

Lemma plan_from_hours (randint : nat -> Z -> Z -> Z) (used_slots : list (Z * Z)) :
  fair_randint randint ->
  (forall s, In s used_slots -> In s time_slots) ->
  forall i j, In j (plan_from i used_slots randint) ->
    exists s e, In (s, e) used_slots /\ s <= job_hour j <= e - 1
                /\ 0 <= job_minute j <= 59 /\ (i <= job_index j)%nat.
Proof.
  intros Hr. induction used_slots as [|[s e] rest IH]; intros Hsub i j Hin.
  - destruct Hin.
  - simpl in Hin. destruct Hin as [<-|Hin].
    + exists s, e. simpl.
      destruct (slot_of_hour s e s (Hsub _ (or_introl eq_refl))) as (_ & He & _).
      * pose proof (Hsub _ (or_introl eq_refl)) as Hs.
        unfold time_slots in Hs. simpl in Hs.
        repeat match goal with
               | X : _ \/ _ |- _ => destruct X as [X|X]
               | X : (_, _) = (_, _) |- _ => inversion X; clear X; subst
               | X : False |- _ => destruct X
               end; lia.
      * split; [left; reflexivity|]. split; [apply Hr; lia|].
        split; [apply Hr; lia|lia].
    + destruct (IH (fun x Hx => Hsub x (or_intror Hx)) (S i) j Hin)
        as (s' & e' & Hin' & Hh & Hm & Hi).
      exists s', e'. split; [right; exact Hin'|]. repeat split; lia.
Qed.

(** X19. The daily timetable.  Whatever [random] draws within its
    contract, the jobs of [schedule_daily_notifications] are as many as
    the slots drawn, numbered from 0 in order, each at a time between
    07:00 and 22:59 inside its own bracket, and no two of them fall in the
    same hour. *)
Theorem daily_jobs_fall_in_distinct_hours (used_slots : list (Z * Z))
    (randint : nat -> Z -> Z -> Z) :
  fair_sample used_slots ->
  fair_randint randint ->
  let jobs := schedule_daily_notifications used_slots randint in
  map job_index jobs = seq 0 (List.length used_slots)
  /\ Forall (fun j => 7 <= job_hour j <= 22 /\ 0 <= job_minute j <= 59) jobs
  /\ NoDup (map job_hour jobs).
Proof.
  intros [Hnd Hsub] Hr jobs. subst jobs.
  unfold schedule_daily_notifications. split; [|split].
  - generalize 0%nat. induction used_slots as [|[s e] rest IH]; intros i.
    + reflexivity.
    + simpl. f_equal. apply IH.
      * inversion Hnd; assumption.
      * intros x Hx. apply Hsub. right. exact Hx.
  - apply List.Forall_forall. intros j Hj.
    destruct (plan_from_hours randint used_slots Hr Hsub 0%nat j Hj)
      as (s & e & Hin & Hh & Hm & _).
    destruct (slot_of_hour s e (job_hour j) (Hsub _ Hin) Hh) as (_ & _ & Hb).
    split; assumption.
  - generalize 0%nat. induction used_slots as [|[s e] rest IH]; intros i.
    + constructor.
    + simpl. inversion Hnd as [|? ? Hnotin Hnd']; subst.
      constructor.
      * intros Hin. apply list_elem_of_In, List.in_map_iff in Hin.
        destruct Hin as (j & Hjh & Hj).
        destruct (plan_from_hours randint rest Hr
                    (fun x Hx => Hsub x (or_intror Hx)) (S i) j Hj)
          as (s' & e' & Hin' & Hh' & _ & _).
        assert (Hse : In (s, e) time_slots) by (apply Hsub; left; reflexivity).
        assert (Hh : s <= randint (2 * i)%nat s (e - 1) <= e - 1).
        { apply Hr.
          unfold time_slots in Hse. simpl in Hse.
          repeat match goal with
                 | X : _ \/ _ |- _ => destruct X as [X|X]
                 | X : (_, _) = (_, _) |- _ => inversion X; clear X; subst
                 | X : False |- _ => destruct X
                 end; lia. }
        rewrite Nat.add_0_r in Hjh.
        replace (i + i)%nat with (2 * i)%nat in Hjh by lia.
        rewrite <- Hjh in Hh.
        destruct (slot_of_hour s e (job_hour j) Hse Hh) as (E1 & E2 & _).
        destruct (slot_of_hour s' e' (job_hour j)
                    (Hsub _ (or_intror Hin')) Hh') as (E1' & E2' & _).
        apply Hnotin. apply list_elem_of_In.
        replace (s, e) with (s', e') by (f_equal; lia).
        exact Hin'.
      * apply IH; [exact Hnd'|].
        intros x Hx. apply Hsub. right. exact Hx.
Qed.

Lemma daily_jobs_fall_in_distinct_hours_witness :
  let used_slots := [(9, 11); (21, 23); (7, 9)] in
  let randint := fun (k : nat) (a b : Z) => if Nat.even k then b else a in
  map job_hour (schedule_daily_notifications used_slots randint) = [10; 22; 8]
  /\ NoDup (map job_hour (schedule_daily_notifications used_slots randint)).
Proof.
  intros used_slots randint. split; [reflexivity|].
  apply (daily_jobs_fall_in_distinct_hours used_slots randint).
  - split.
    + unfold used_slots. repeat constructor; set_solver.
    + intros s Hs. unfold used_slots in Hs. simpl in Hs. unfold time_slots. simpl.
      tauto.
  - intros k a b Hab. unfold randint. destruct (Nat.even k); lia.
Defined.
